(** * Incremental ingestion pipeline of the weather-data tools

    A shallow embedding of [download_ncei.py] and [download_storm_events.py]:
    the coordinator (watermark, truncation of the boundary year, listing,
    filters) as pure functions over an in-memory sink, and the
    fetcher/loader pair coupled by the bounded queue as an interleaving
    step function driven by a schedule. *)

From Stdlib Require Import ZArith List Bool String Ascii Lia Sorting.Sorted
  Sorting.Permutation.
Import ListNotations.

Local Open Scope string_scope.
Local Open Scope list_scope.
Local Open Scope Z_scope.

(** ** Python helpers used by both tools

    A name is a [str] all of whose code points are below 256, held one
    code point per character of the string.  On these code points the
    decimal digits of [int()] and of the pattern [\d] are 0 to 9. *)

Module Py.

(** Python truthiness of an [int]: [if n:] holds unless [n == 0]. *)
Definition truthy (n : Z) : bool := negb (n =? 0).

(** Truthiness of an optional int ([None] and [0] are both false). *)
Definition truthy_opt (o : option Z) : bool :=
  match o with
  | Some n => truthy n
  | None => false
  end.

Definition is_digit (c : ascii) : bool :=
  let n := nat_of_ascii c in ((48 <=? n) && (n <=? 57))%nat.

Definition digit_val (c : ascii) : Z := Z.of_nat (nat_of_ascii c) - 48.

(** The code points below 256 that [int()] strips at both ends of its
    argument: TAB to CR, the space, U+0085 and U+00A0. *)
Definition is_space (c : ascii) : bool :=
  let n := nat_of_ascii c in
  (((9 <=? n) && (n <=? 13)) || (n =? 32) || (n =? 133) || (n =? 160))%nat.

Fixpoint lstrip (l : list ascii) : list ascii :=
  match l with
  | c :: t => if is_space c then lstrip t else l
  | [] => []
  end.

Definition strip (l : list ascii) : list ascii :=
  rev (lstrip (rev (lstrip l))).

(** Decimal digits, single underscores allowed between two digits. *)
Fixpoint digits (acc : Z) (after_digit : bool) (l : list ascii) : option Z :=
  match l with
  | [] => if after_digit then Some acc else None
  | c :: t =>
      if is_digit c then digits (10 * acc + digit_val c) true t
      else if Ascii.eqb c "_" && after_digit then digits acc false t
      else None
  end.

(** [int(s)]; [None] stands for [ValueError]. *)
Definition int (s : string) : option Z :=
  match strip (list_ascii_of_string s) with
  | "+"%char :: t => digits 0 false t
  | "-"%char :: t => option_map Z.opp (digits 0 false t)
  | l => digits 0 false l
  end.

(** [s[:4]] *)
Definition slice4 (s : string) : string := substring 0 4 s.

(** [s.split(".")[0]] *)
Fixpoint split_dot_0 (s : string) : string :=
  match s with
  | EmptyString => EmptyString
  | String c t => if Ascii.eqb c "." then EmptyString else String c (split_dot_0 t)
  end.

(** [list.sort()] on strings: ascending by code points.  The order is
    total and equal strings are identical, so every sorting algorithm
    yields the same list; insertion is used here. *)
Fixpoint insert (x : string) (l : list string) : list string :=
  match l with
  | [] => [x]
  | y :: t => if String.leb x y then x :: l else y :: insert x t
  end.

Fixpoint sort (l : list string) : list string :=
  match l with
  | [] => []
  | x :: t => insert x (sort t)
  end.

(** A list comprehension whose condition may raise. *)
Fixpoint filter_raising (p : string -> option bool) (l : list string)
  : option (list string) :=
  match l with
  | [] => Some []
  | x :: t =>
      match p x with
      | None => None
      | Some b =>
          match filter_raising p t with
          | None => None
          | Some r => Some (if b then x :: r else r)
          end
      end
  end.

End Py.

(** ** download_storm_events.py: the coordinator *)

Module Storm.

(** [re.match] of [_d(\d{4})_] anchored at the head of [s]; [int] of the
    four digits. *)
Definition match_year_here (s : string) : option Z :=
  match s with
  | String "_" (String "d" (String a (String b (String c (String d (String "_" _)))))) =>
      if Py.is_digit a && Py.is_digit b && Py.is_digit c && Py.is_digit d
      then Some (1000 * Py.digit_val a + 100 * Py.digit_val b
                 + 10 * Py.digit_val c + Py.digit_val d)
      else None
  | _ => None
  end.

(** [re.search(r'_d(\d{4})_', filename)]: the leftmost match. *)
Fixpoint extract_year_from_filename (filename : string) : option Z :=
  match match_year_here filename with
  | Some y => Some y
  | None =>
      match filename with
      | EmptyString => None
      | String _ t => extract_year_from_filename t
      end
  end.

(** The two columns of [storm_events] the coordinator looks at; both are
    nullable BIGINTs. *)
Record row : Type := mk_row { BEGIN_YEARMONTH : option Z; YEAR : option Z }.

(** The sink: [None] when the table does not exist. *)
Definition sink : Type := option (list row).

(** [SELECT MAX(BEGIN_YEARMONTH)]: NULLs are ignored, NULL on no value. *)
Fixpoint sql_max (l : list (option Z)) : option Z :=
  match l with
  | [] => None
  | None :: t => sql_max t
  | Some v :: t =>
      match sql_max t with
      | None => Some v
      | Some m => Some (Z.max v m)
      end
  end.

(** Lines 105-129: [max_date]. *)
Definition max_date (s : sink) : option Z :=
  match s with
  | None => None
  | Some rows => sql_max (map BEGIN_YEARMONTH rows)
  end.

(** [WHERE YEAR = y] *)
Definition year_is (y : Z) (r : row) : bool :=
  match YEAR r with
  | Some v => v =? y
  | None => false
  end.

(** Lines 165-193: [DELETE FROM t WHERE YEAR = max_year], issued when the
    count of such rows is positive (deleting none is the same). *)
Definition truncate (y : Z) (s : sink) : sink :=
  match s with
  | None => None
  | Some rows =>
      if (0 <? Z.of_nat (List.length (filter (year_is y) rows)))
      then Some (filter (fun r => negb (year_is y r)) rows)
      else Some rows
  end.

(** [file_year and file_year >= bound] *)
Definition keeps (bound : Z) (f : string) : bool :=
  match extract_year_from_filename f with
  | Some y => Py.truthy y && (bound <=? y)
  | None => false
  end.

(** Lines 147-155. *)
Definition filter_since (since_year : option Z) (files : list string) : list string :=
  if Py.truthy_opt since_year
  then match since_year with
       | Some y => filter (keeps y) files
       | None => files
       end
  else files.

(** The year whose rows are truncated: [max_date // 100], guarded by
    [if max_date:] and [if max_year:]. *)
Definition max_year (s : sink) : option Z :=
  match max_date s with
  | Some d => if Py.truthy d && Py.truthy (d / 100) then Some (d / 100) else None
  | None => None
  end.

(** Lines 157-206. *)
Definition filter_watermark (wm : option Z) (files : list string) : list string :=
  match wm with
  | Some y => filter (keeps y) files
  | None => files
  end.

(** What the coordinator has done when the two stages start. *)
Record prepared : Type := mk_prepared
  { truncated : option Z;        (* year whose rows were deleted *)
    sink_after : sink;
    files : list string }.

(** Lines 104-208 of [download_and_process_files]. *)
Definition prepare (s : sink) (listing : list string) (since_year : option Z)
  : prepared :=
  let wm := max_year s in
  let files := filter_since since_year (Py.sort listing) in
  {| truncated := wm;
     sink_after := match wm with Some y => truncate y s | None => s end;
     files := filter_watermark wm files |}.

End Storm.

(** ** download_ncei.py: the coordinator *)

Module Ncei.

(** A DATE as DuckDB hands it to Python: a [datetime.date], whose year
    lies between [MINYEAR] = 1 and [MAXYEAR] = 9999.  The table holds such
    dates only. *)
Record date : Type := mk_date
  { year : Z; month : Z; day : Z;
    year_ok : (1 <=? year) && (year <=? 9999) = true }.

Definition date_leb (a b : date) : bool :=
  (year a <? year b)
  || ((year a =? year b)
      && ((month a <? month b) || ((month a =? month b) && (day a <=? day b)))).

(** The one column of [ghcn_daily_raw] the coordinator looks at. *)
Record row : Type := mk_row { row_date : option date }.

Definition sink : Type := option (list row).

(** [SELECT MAX(date)] *)
Fixpoint sql_max (l : list (option date)) : option date :=
  match l with
  | [] => None
  | None :: t => sql_max t
  | Some v :: t =>
      match sql_max t with
      | None => Some v
      | Some m => Some (if date_leb v m then m else v)
      end
  end.

(** Lines 31-55: [max_date]. *)
Definition max_date (s : sink) : option date :=
  match s with
  | None => None
  | Some rows => sql_max (map row_date rows)
  end.

(** [WHERE EXTRACT(YEAR FROM date) = y] *)
Definition year_is (y : Z) (r : row) : bool :=
  match row_date r with
  | Some d => year d =? y
  | None => false
  end.

(** Lines 83-112. *)
Definition truncate (y : Z) (s : sink) : sink :=
  match s with
  | None => None
  | Some rows =>
      if (0 <? Z.of_nat (List.length (filter (year_is y) rows)))
      then Some (filter (fun r => negb (year_is y r)) rows)
      else Some rows
  end.

(** A [datetime.date] is always true, so [if max_date:] only tests
    presence; [max_year = max_date.year], defined on every [datetime.date]. *)
Definition max_year (s : sink) : option Z := option_map year (max_date s).

(** Lines 73-76: [int(f[:4]) >= since_year]. *)
Definition filter_since (since_year : option Z) (files : list string)
  : option (list string) :=
  if Py.truthy_opt since_year
  then match since_year with
       | Some y =>
           Py.filter_raising
             (fun f => option_map (fun v => y <=? v) (Py.int (Py.slice4 f))) files
       | None => Some files
       end
  else Some files.

(** Lines 114-119: [int(f.split(".")[0]) >= max_year]. *)
Definition filter_watermark (wm : option Z) (files : list string)
  : option (list string) :=
  match wm with
  | Some y =>
      Py.filter_raising
        (fun f => option_map (fun v => y <=? v) (Py.int (Py.split_dot_0 f))) files
  | None => Some files
  end.

(** How far the coordinator got.  The since filter runs before the
    truncation, the watermark filter after it; a [ValueError] of either
    comprehension leaves the function. *)
Inductive prepared : Type :=
| Started (truncated : option Z) (sink_after : sink) (files : list string)
| RaisedBeforeTruncate
| RaisedAfterTruncate (truncated : Z) (sink_after : sink).

(** Lines 30-121 of [download_and_process_files]. *)
Definition prepare (s : sink) (listing : list string) (since_year : option Z)
  : prepared :=
  match filter_since since_year (Py.sort listing) with
  | None => RaisedBeforeTruncate
  | Some files =>
      match max_year s with
      | None => Started None s files
      | Some y =>
          match filter_watermark (Some y) files with
          | None => RaisedAfterTruncate y (truncate y s)
          | Some files' => Started (Some y) (truncate y s) files'
          end
      end
  end.

End Ncei.

(** ** The fetcher and the loader around [queue.Queue(maxsize=2)]

    [download_files] runs in its own thread; the [while True] loop and the
    exit of the [with tempfile.TemporaryDirectory()] block run in the main
    thread; the SIGINT handler sets [stop_event].  A schedule chooses which
    of them moves next and supplies the outcome of the transfer or of the
    insert.  A move ends wherever the other thread or the handler can make
    a difference: after each test of [stop_event], after each transfer,
    after each [put], after each [get] and after [queue.Empty] is caught.
    The body of one iteration of the loop (insert, prints, [os.remove],
    [task_done]) reads neither the flag nor the queue and is one move.
    The code after the [with] block (closing connections, the bounded
    [join] of the daemon thread) is not part of the machine. *)

Module Pipeline.

(** What travels through [file_queue]: [(filename, temp_file_path)] or the
    [None] put by the [finally] clause of [download_files]. *)
Inductive item : Type :=
| File (f : string)
| EndOfFiles.

Inductive event : Type :=
| Truncated (y : Z)            (* rows of year [y] deleted by the coordinator *)
| Downloaded (f : string)      (* [retrbinary] returned, the file is staged *)
| TransferFailed (f : string)  (* [retrbinary] raised, a partial file is left *)
| Discarded (f : string)       (* [os.remove] in [download_files] *)
| Pushed (i : item)            (* [file_queue.put] returned *)
| Inserted (f : string)        (* the INSERT went through *)
| LoadError (f : string)       (* "Error processing {filename}" *)
| Removed (f : string)         (* [os.remove] in the [finally] of the loop *)
| TaskDone (f : string)        (* [file_queue.task_done()] *)
| CleanedUp (l : list string). (* the temporary directory is removed *)

(** Where [download_files] stands. *)
Inductive fetcher_pc : Type :=
| FLoop (rest : list string)                 (* head of the [for] loop *)
| FTransfer (f : string) (rest : list string) (* first check passed, before [open] *)
| FDownloaded (f : string) (rest : list string) (* before the second check *)
| FPut (f : string) (rest : list string)     (* before [file_queue.put(...)] *)
| FFinally (raised : bool)                   (* before [file_queue.put(None)] *)
| FExit (raised : bool).

(** How the [while True] loop was left. *)
Inductive exit_reason : Type :=
| ByMarker     (* [item is None] *)
| ByCancel     (* [queue.Empty] with [stop_event] set *)
| ByError.     (* an exception left the [finally] clause *)

(** Where the main thread stands. *)
Inductive main_pc : Type :=
| LGet                       (* [file_queue.get(timeout=1.0)] *)
| LEmpty                     (* [queue.Empty] caught, flag not yet tested *)
| LProcess (f : string)      (* inside the [try] *)
| LExit (r : exit_reason)    (* loop left, still inside the [with] *)
| MDone (r : exit_reason).   (* temporary directory cleaned up *)

Record state : Type := mk_state
  { stop : bool;                (* [stop_event] *)
    queue : list item;          (* [file_queue], oldest first *)
    fetcher : fetcher_pc;
    main : main_pc;
    staging : list string;      (* files present in [temp_dir] *)
    trace : list event }.       (* oldest first *)

Definition maxsize : nat := 2.

(** [temp_dir] exists until the [with] block is left. *)
Definition tmp_alive (m : main_pc) : bool :=
  match m with
  | MDone _ => false
  | _ => true
  end.

Definition present (f : string) (st : list string) : bool :=
  existsb (String.eqb f) st.

(** [open(path, "wb")] creates the file or truncates the one in place. *)
Definition create (f : string) (st : list string) : list string :=
  if present f st then st else st ++ [f].

(** [os.remove(path)] on a file that is present. *)
Definition delete (f : string) (st : list string) : list string :=
  filter (fun g => negb (String.eqb f g)) st.

Inductive action : Type :=
| Signal                         (* SIGINT: [stop_event.set()] *)
| FetcherStep (transfer_ok : bool)
| MainStep (insert_ok : bool).

Definition log (s : state) (es : list event) : list event := trace s ++ es.

(** One move of [download_files]; [None] when it is blocked in [put] or has
    returned. *)
Definition fetcher_step (transfer_ok : bool) (s : state) : option state :=
  match fetcher s with
  | FLoop rest =>
      match rest with
      | [] =>
          (* the list is exhausted *)
          Some (mk_state (stop s) (queue s) (FFinally false) (main s) (staging s) (trace s))
      | f :: rest' =>
          if stop s then
            (* [break] *)
            Some (mk_state (stop s) (queue s) (FFinally false) (main s) (staging s) (trace s))
          else
            Some (mk_state (stop s) (queue s) (FTransfer f rest') (main s) (staging s) (trace s))
      end
  | FTransfer f rest =>
      if negb (tmp_alive (main s)) then
        (* [open] raises: the directory is gone *)
        Some (mk_state (stop s) (queue s) (FFinally true) (main s) (staging s) (trace s))
      else if transfer_ok then
        Some (mk_state (stop s) (queue s) (FDownloaded f rest) (main s)
                (create f (staging s)) (log s [Downloaded f]))
      else
        Some (mk_state (stop s) (queue s) (FFinally true) (main s)
                (create f (staging s)) (log s [TransferFailed f]))
  | FDownloaded f rest =>
      if stop s then
        if present f (staging s) then
          Some (mk_state (stop s) (queue s) (FFinally false) (main s)
                  (delete f (staging s)) (log s [Discarded f]))
        else
          (* [os.remove] raises *)
          Some (mk_state (stop s) (queue s) (FFinally true) (main s) (staging s) (trace s))
      else
        Some (mk_state (stop s) (queue s) (FPut f rest) (main s) (staging s) (trace s))
  | FPut f rest =>
      if (List.length (queue s) <? maxsize)%nat then
        Some (mk_state (stop s) (queue s ++ [File f]) (FLoop rest) (main s)
                (staging s) (log s [Pushed (File f)]))
      else None
  | FFinally raised =>
      if (List.length (queue s) <? maxsize)%nat then
        Some (mk_state (stop s) (queue s ++ [EndOfFiles]) (FExit raised) (main s)
                (staging s) (log s [Pushed EndOfFiles]))
      else None
  | FExit _ => None
  end.

(** One move of the main thread; [None] once the [with] block is left. *)
Definition main_step (insert_ok : bool) (s : state) : option state :=
  match main s with
  | LGet =>
      match queue s with
      | File f :: q =>
          Some (mk_state (stop s) q (fetcher s) (LProcess f) (staging s) (trace s))
      | EndOfFiles :: q =>
          Some (mk_state (stop s) q (fetcher s) (LExit ByMarker) (staging s) (trace s))
      | [] =>
          (* the timeout expires: [queue.Empty] *)
          Some (mk_state (stop s) [] (fetcher s) LEmpty (staging s) (trace s))
      end
  | LEmpty =>
      if stop s then
        (* [break] *)
        Some (mk_state (stop s) (queue s) (fetcher s) (LExit ByCancel) (staging s) (trace s))
      else
        (* [continue] *)
        Some (mk_state (stop s) (queue s) (fetcher s) LGet (staging s) (trace s))
  | LProcess f =>
      let outcome := if insert_ok then Inserted f else LoadError f in
      if present f (staging s) then
        Some (mk_state (stop s) (queue s) (fetcher s) LGet (delete f (staging s))
                (log s [outcome; Removed f; TaskDone f]))
      else
        (* [os.remove] raises inside the [finally] *)
        Some (mk_state (stop s) (queue s) (fetcher s) (LExit ByError) (staging s)
                (log s [outcome]))
  | LExit r =>
      Some (mk_state (stop s) (queue s) (fetcher s) (MDone r) []
              (log s [CleanedUp (staging s)]))
  | MDone _ => None
  end.

Definition step (a : action) (s : state) : option state :=
  match a with
  | Signal =>
      Some (mk_state true (queue s) (fetcher s) (main s) (staging s) (trace s))
  | FetcherStep ok => fetcher_step ok s
  | MainStep ok => main_step ok s
  end.

Fixpoint run (sched : list action) (s : state) : option state :=
  match sched with
  | [] => Some s
  | a :: sched' =>
      match step a s with
      | Some s' => run sched' s'
      | None => None
      end
  end.

(** The moment the download thread is started: [pre] is what the
    coordinator has logged, [files] the filtered listing. *)
Definition init (pre : list event) (files : list string) : state :=
  mk_state false [] (FLoop files) LGet [] pre.

(** *** Observations on a trace *)

Definition pushes (t : list event) : list item :=
  flat_map (fun e => match e with Pushed i => [i] | _ => [] end) t.

Definition pushed_files (t : list event) : list string :=
  flat_map (fun e => match e with Pushed (File f) => [f] | _ => [] end) t.

(** Files handed to the insert, in the order of the calls. *)
Definition loads (t : list event) : list string :=
  flat_map (fun e => match e with
                     | Inserted f | LoadError f => [f]
                     | _ => []
                     end) t.

Definition downloads (t : list event) : list string :=
  flat_map (fun e => match e with Downloaded f => [f] | _ => [] end) t.

(** Files taken out of local storage, once per removal. *)
Definition removals (t : list event) : list string :=
  flat_map (fun e => match e with
                     | Discarded f | Removed f => [f]
                     | CleanedUp l => l
                     | _ => []
                     end) t.

Definition queue_files (q : list item) : list string :=
  flat_map (fun i => match i with File f => [f] | EndOfFiles => [] end) q.

(** *** Reading the program counters *)

(** Positions of the two threads, read off their program counters. *)
Definition exited (fe : fetcher_pc) : bool :=
  match fe with FExit _ => true | _ => false end.

Definition in_loop (fe : fetcher_pc) : bool :=
  match fe with
  | FLoop _ | FTransfer _ _ | FDownloaded _ _ | FPut _ _ => true
  | _ => false
  end.

Definition in_hand (fe : fetcher_pc) : list string :=
  match fe with FDownloaded f _ | FPut f _ => [f] | _ => [] end.

(** Names [download_files] has not opened a file for yet. *)
Definition rest_of (fe : fetcher_pc) : list string :=
  match fe with
  | FLoop r | FDownloaded _ r | FPut _ r => r
  | FTransfer f r => f :: r
  | _ => []
  end.

Definition raised_of (fe : fetcher_pc) : bool :=
  match fe with FFinally r | FExit r => r | _ => false end.

Definition current (m : main_pc) : list string :=
  match m with LProcess f => [f] | _ => [] end.

Definition exit_of (m : main_pc) : option exit_reason :=
  match m with LExit r | MDone r => Some r | _ => None end.

Definition marker_taken (m : main_pc) : bool :=
  match exit_of m with Some ByMarker => true | _ => false end.

(** Files that may sit in local storage on behalf of each thread. *)
Definition holds_main (m : main_pc) : nat :=
  match m with LProcess _ | LExit ByError => 1 | _ => 0 end.

Definition holds_fetcher (fe : fetcher_pc) : nat :=
  match fe with
  | FDownloaded _ _ | FPut _ _ => 1
  | FFinally r | FExit r => if r then 1 else 0
  | FLoop _ | FTransfer _ _ => 0
  end.

Definition fetched (t : list event) : list string :=
  flat_map (fun e => match e with
                     | Downloaded f | TransferFailed f => [f]
                     | _ => []
                     end) t.

(** [a] occurs ahead of every occurrence of [b]. *)
Definition before (a b : event) (t : list event) : Prop :=
  forall t1 t2, t = t1 ++ b :: t2 -> In a t1.

(** Steps [download_files] is away from its return once the flag is set. *)
Definition distance (fe : fetcher_pc) : nat :=
  match fe with
  | FTransfer _ _ | FPut _ _ => 3
  | FLoop _ | FDownloaded _ _ => 2
  | FFinally _ => 1
  | FExit _ => 0
  end.

(** Moves [download_files] has left at most, flag or no flag: four for
    each name still to come, and the way out. *)
Definition budget (fe : fetcher_pc) : nat :=
  match fe with
  | FLoop rest => 4 * List.length rest + 2
  | FTransfer _ rest => 4 * List.length rest + 5
  | FDownloaded _ rest => 4 * List.length rest + 4
  | FPut _ rest => 4 * List.length rest + 3
  | FFinally _ => 1
  | FExit _ => 0
  end.


(** Nothing was cancelled and nothing raised so far. *)
Definition undisturbed (s : state) : Prop :=
  stop s = false /\ raised_of (fetcher s) = false
  /\ exit_of (main s) <> Some ByCancel /\ exit_of (main s) <> Some ByError.

End Pipeline.

(** ** The two tools as runs of the pipeline *)

Module Run.

Definition coordinator_log (truncated : option Z) : list Pipeline.event :=
  match truncated with
  | Some y => [Pipeline.Truncated y]
  | None => []
  end.

(** The moment the download thread is started, with the truncation year
    [wm] (if any) logged by the coordinator. *)
Definition start (wm : option Z) (files : list string) : Pipeline.state :=
  Pipeline.init (coordinator_log wm) files.

(** States a run can be in, over all schedules. *)
Definition reachable (wm : option Z) (files : list string) (s : Pipeline.state)
  : Prop :=
  exists sched, Pipeline.run sched (start wm files) = Some s.

(** [download_storm_events.py]: the state in which the stages start. *)
Definition storm (s : Storm.sink) (listing : list string) (since_year : option Z)
  : Pipeline.state :=
  let p := Storm.prepare s listing since_year in
  start (Storm.truncated p) (Storm.files p).

(** [download_ncei.py]: the state in which the stages start, unless a
    filter raised. *)
Definition ncei (s : Ncei.sink) (listing : list string) (since_year : option Z)
  : option Pipeline.state :=
  match Ncei.prepare s listing since_year with
  | Ncei.Started t _ files => Some (start t files)
  | _ => None
  end.

End Run.

(** ** Vocabulary of the claims *)

Import Pipeline Run.

Definition name_le (a b : string) : Prop := String.leb a b = true.

Definition storm_year_absent (y : Z) (s : Storm.sink) : Prop :=
  forall rows r, s = Some rows -> In r rows -> Storm.YEAR r <> Some y.

Definition ncei_year_absent (y : Z) (s : Ncei.sink) : Prop :=
  forall rows r d, s = Some rows -> In r rows ->
                   Ncei.row_date r = Some d -> Ncei.year d <> y.

(** Every log of a run from [s0] opens with the truncation of year [y]:
    whatever is fetched or loaded comes after it. *)
Definition truncated_first (y : Z) (s0 : state) : Prop :=
  forall sched st, run sched s0 = Some st -> exists r, trace st = Truncated y :: r.

(** A period [y] is below neither bound: the lower bound [since] when it is
    given and not 0, the truncation year [wm] when there is one. *)
Definition passes (since wm : option Z) (y : Z) : Prop :=
  (forall b, since = Some b -> b <> 0 -> b <= y)
  /\ (forall w, wm = Some w -> w <= y).

Definition sink_2024 : Storm.sink :=
  Some [Storm.mk_row (Some 202311) (Some 2023);
        Storm.mk_row (Some 202402) (Some 2024);
        Storm.mk_row (Some 202403) (Some 2024)].

Definition listing_2023_2025 : list string :=
  ["StormEvents_details-ftp_v1.0_d2025_c20250520.csv.gz";
   "StormEvents_details-ftp_v1.0_d2023_c20250520.csv.gz";
   "StormEvents_details-ftp_v1.0_d2024_c20250520.csv.gz"].

Definition four_files : list string :=
  ["2019.csv.gz"; "2020.csv.gz"; "2021.csv.gz"; "2022.csv.gz"].

(** The four moves [download_files] makes for one file: the test of the
    flag, the transfer, the second test, the put. *)
Definition fetch_one : list action := repeat (FetcherStep true) 4.

(** The loop takes the first file and is then left behind: the next two
    files fill the queue and a fourth is staged. *)
Definition slow_loader : list action :=
  fetch_one ++ [MainStep true] ++ fetch_one ++ fetch_one
  ++ repeat (FetcherStep true) 3.

(** ** Further vocabulary *)

(** Lines 61-66 of both tools: the directory handed to [ftp.cwd]. *)
Module Ftp.

(** [s[n:]] *)
Fixpoint drop (n : nat) (s : string) : string :=
  match n, s with
  | O, _ => s
  | S _, EmptyString => EmptyString
  | S n', String _ t => drop n' t
  end.

(** [folder_path] with a leading [ftp://{ftp_server}] removed. *)
Definition cwd_path (ftp_server folder_path : string) : string :=
  let p := String.append "ftp://" ftp_server in
  if String.prefix p folder_path then drop (String.length p) folder_path
  else folder_path.

End Ftp.

(** The names the NCEI archive uses: four digits, a dot, anything. *)
Definition is_year_name (f : string) : bool :=
  match f with
  | String a (String b (String c (String d (String "." _)))) =>
      Py.is_digit a && Py.is_digit b && Py.is_digit c && Py.is_digit d
  | _ => false
  end.

(** The number four decimal digits spell. *)
Definition year_value (a b c d : ascii) : Z :=
  1000 * Py.digit_val a + 100 * Py.digit_val b + 10 * Py.digit_val c
  + Py.digit_val d.

(** A name carries a year at its head: [_d], four digits, [_]. *)
Definition year_tag (a b c d : ascii) (rest : string) : string :=
  String "_" (String "d" (String a (String b (String c (String d (String "_" rest)))))).

Definition ncei_sink_2024 : Ncei.sink :=
  Some [Ncei.mk_row (Some (Ncei.mk_date 2023 12 31 eq_refl));
        Ncei.mk_row (Some (Ncei.mk_date 2024 1 15 eq_refl));
        Ncei.mk_row None;
        Ncei.mk_row (Some (Ncei.mk_date 2024 3 2 eq_refl))].

(** The file [download_files] is about to put, if any. *)
Definition to_put (fe : fetcher_pc) : list string :=
  match fe with FPut f _ => [f] | _ => [] end.

(** A schedule in which SIGINT arrives while [download_files] is about to
    put its first file. *)
Definition cancelled_while_putting : list action :=
  [FetcherStep true; FetcherStep true; FetcherStep true; Signal].

(** The file [download_files] has decided to transfer, if any. *)
Definition to_transfer (fe : fetcher_pc) : list string :=
  match fe with FTransfer f _ => [f] | _ => [] end.

(** [download_files] is in front of a [file_queue.put]. *)
Definition putting (fe : fetcher_pc) : bool :=
  match fe with FPut _ _ | FFinally _ => true | _ => false end.

(** The loop left to itself: a [get] and an iteration for each file in the
    queue. *)
Definition drain (q : list item) : list action :=
  flat_map (fun _ => [MainStep true; MainStep true]) (queue_files q).


(** The printed outcome of the load of [f]. *)
Definition outcome (ok : bool) (f : string) : event :=
  if ok then Inserted f else LoadError f.

(** A poll times out before the first put; both files are then put, the
    list is exhausted, and SIGINT arrives before the loop tests the flag. *)
Definition loop_left_early : list action :=
  [MainStep true] ++ fetch_one ++ fetch_one ++ [FetcherStep true]
  ++ [Signal; MainStep true; MainStep true].

(** A poll times out while [download_files] is about to put its file; the
    put and SIGINT come before the loop tests the flag. *)
Definition late_put : list action :=
  repeat (FetcherStep true) 3
  ++ [MainStep true; FetcherStep true; Signal; MainStep true].

(** Files for which [task_done] was called, and files removed by the
    [finally] clause of the loop, in order. *)
Definition task_dones (t : list event) : list string :=
  flat_map (fun e => match e with TaskDone f => [f] | _ => [] end) t.

Definition removed_by_loop (t : list event) : list string :=
  flat_map (fun e => match e with Removed f => [f] | _ => [] end) t.

(** ** The [try] block of the NCEI loop and its row counts *)

Module Load.

(** [rows_before] and [rows_after] of one file. *)
Record report : Type := mk_report { rows_before : Z; rows_after : Z }.

Definition rows_added (r : report) : Z := rows_after r - rows_before r.

Definition count (rows : list Ncei.row) : Z := Z.of_nat (List.length rows).

(** Lines 191-256 of [download_ncei.py] for one file.  [parsed] is what
    [read_csv_auto] and the casts make of the file, [None] when the INSERT
    raises (it then inserts nothing).  A missing table is created first,
    and stays created whatever the INSERT does. *)
Definition ncei_try (s : Ncei.sink) (parsed : option (list Ncei.row))
  : Ncei.sink * option report :=
  let rows := match s with Some rows => rows | None => [] end in
  let before := match s with Some rows => count rows | None => 0 end in
  match parsed with
  | None => (Some rows, None)
  | Some new =>
      (Some (rows ++ new), Some (mk_report before (count (rows ++ new))))
  end.

(** The files taken from the queue, one after the other. *)
Fixpoint ncei_loop (s : Ncei.sink) (files : list (option (list Ncei.row)))
  : Ncei.sink * list (option report) :=
  match files with
  | [] => (s, [])
  | p :: rest =>
      let (s1, r) := ncei_try s p in
      let (s2, rs) := ncei_loop s1 rest in
      (s2, r :: rs)
  end.

(** Rows of a sink, none when the table is missing. *)
Definition rows_of (s : Ncei.sink) : list Ncei.row :=
  match s with Some rows => rows | None => [] end.

(** Rows of the files whose INSERT went through. *)
Definition inserted (files : list (option (list Ncei.row))) : list Ncei.row :=
  flat_map (fun p => match p with Some new => new | None => [] end) files.

(** Sum of the [rows_added] printed. *)
Definition total_added (rs : list (option report)) : Z :=
  fold_right (fun r acc => match r with Some x => rows_added x + acc | None => acc end)
    0 rs.

End Load.

(** Moves of [download_files] in a schedule. *)
Definition fetcher_moves (sched : list action) : nat :=
  List.length (filter (fun a => match a with FetcherStep _ => true | _ => false end)
                 sched).

(** * Properties *)

(** ** Lists and sorting *)

Lemma filter_none_negb {A} (p : A -> bool) (l : list A) :
  filter p l = [] -> filter (fun x => negb (p x)) l = l.
Proof.
  induction l as [|a l IH]; simpl; [reflexivity|].
  destruct (p a); simpl; [discriminate|].
  intros H. now rewrite IH.
Qed.

Lemma ascii_compare_trans_lt a b c :
  Ascii.compare a b = Lt -> Ascii.compare b c = Lt -> Ascii.compare a c = Lt.
Proof.
  unfold Ascii.compare. rewrite !N.compare_lt_iff. lia.
Qed.

Lemma ascii_compare_refl a : Ascii.compare a a = Eq.
Proof. unfold Ascii.compare. apply N.compare_refl. Qed.

Lemma string_compare_trans_le s1 :
  forall s2 s3,
    String.compare s1 s2 <> Gt -> String.compare s2 s3 <> Gt ->
    String.compare s1 s3 <> Gt.
Proof.
  induction s1 as [|a s1 IH]; intros [|b s2] [|c s3]; simpl; try congruence.
  destruct (Ascii.compare a b) eqn:Eab; try congruence;
    destruct (Ascii.compare b c) eqn:Ebc; try congruence; intros H1 H2.
  - apply Ascii.compare_eq_iff in Eab, Ebc. subst.
    rewrite ascii_compare_refl. now apply IH with s2.
  - apply Ascii.compare_eq_iff in Eab. subst. now rewrite Ebc.
  - apply Ascii.compare_eq_iff in Ebc. subst. now rewrite Eab.
  - now rewrite (ascii_compare_trans_lt _ _ _ Eab Ebc).
Qed.

Lemma name_le_trans a b c : name_le a b -> name_le b c -> name_le a c.
Proof.
  unfold name_le, String.leb. intros H1 H2.
  pose proof (string_compare_trans_le a b c) as T.
  destruct (String.compare a b); destruct (String.compare b c);
    destruct (String.compare a c); try reflexivity; try discriminate;
    exfalso; apply T; congruence.
Qed.

Lemma insert_in x l y : In y (Py.insert x l) <-> y = x \/ In y l.
Proof.
  induction l as [|a l IH]; simpl.
  - intuition.
  - destruct (String.leb x a); simpl; rewrite ?IH; intuition.
Qed.

Lemma sort_in l y : In y (Py.sort l) <-> In y l.
Proof.
  induction l as [|a l IH]; simpl; [reflexivity|].
  rewrite insert_in, IH. intuition.
Qed.

Lemma insert_sorted x l :
  StronglySorted name_le l -> StronglySorted name_le (Py.insert x l).
Proof.
  induction 1 as [|a l Hs IH Hall]; simpl.
  - constructor; constructor.
  - destruct (String.leb x a) eqn:E.
    + constructor; [now constructor|].
      constructor; [exact E|].
      eapply Forall_impl; [|exact Hall]. intros b Hb.
      now apply name_le_trans with a.
    + constructor; [exact IH|].
      apply Forall_forall. intros b Hb. apply insert_in in Hb.
      destruct Hb as [->|Hb].
      * destruct (String.leb_total x a) as [H|H]; [congruence|exact H].
      * rewrite Forall_forall in Hall. now apply Hall.
Qed.

Lemma sort_sorted l : StronglySorted name_le (Py.sort l).
Proof.
  induction l; simpl; [constructor|now apply insert_sorted].
Qed.

Lemma filter_sorted {A} (R : A -> A -> Prop) p l :
  StronglySorted R l -> StronglySorted R (filter p l).
Proof.
  induction 1 as [|a l Hs IH Hall]; simpl; [constructor|].
  destruct (p a); [|exact IH].
  constructor; [exact IH|].
  rewrite Forall_forall in *. intros b Hb. apply filter_In in Hb.
  now apply Hall.
Qed.

(** What a comprehension with a raising condition returns, when it
    returns. *)
Lemma filter_raising_some p l r :
  Py.filter_raising p l = Some r ->
  r = filter (fun x => match p x with Some b => b | None => false end) l
  /\ forall x, In x l -> p x <> None.
Proof.
  revert r. induction l as [|a l IH]; simpl; intros r H.
  - inversion H. split; [reflexivity|tauto].
  - destruct (p a) as [b|] eqn:Ea; [|discriminate].
    destruct (Py.filter_raising p l) as [r'|]; [|discriminate].
    destruct (IH r' eq_refl) as [-> Hn]. inversion H; subst. split.
    + now destruct b.
    + intros x [<-|Hx]; [congruence|now apply Hn].
Qed.

Lemma filter_raising_none p l :
  Py.filter_raising p l = None <-> exists x, In x l /\ p x = None.
Proof.
  induction l as [|a l IH]; simpl.
  - split; [discriminate|intros (x & [] & _)].
  - destruct (p a) as [b|] eqn:Ea.
    + destruct (Py.filter_raising p l) as [r'|].
      * split; [discriminate|].
        intros (x & [<-|Hx] & Hp); [congruence|].
        assert (Some r' = None) as C by (apply IH; eauto). discriminate C.
      * split; [|reflexivity]. intros _.
        destruct IH as [IH _]. destruct (IH eq_refl) as (x & Hx & Hp). eauto.
    + split; [|reflexivity]. intros _. exists a. auto.
Qed.

Lemma filter_raising_sorted p l r :
  Py.filter_raising p l = Some r ->
  StronglySorted name_le l -> StronglySorted name_le r.
Proof.
  intros H Hs. apply filter_raising_some in H as [-> _].
  now apply filter_sorted.
Qed.

(** ** The coordinator *)

Lemma storm_truncate_filter y rows :
  Storm.truncate y (Some rows)
  = Some (filter (fun r => negb (Storm.year_is y r)) rows).
Proof.
  unfold Storm.truncate.
  destruct (filter (Storm.year_is y) rows) eqn:E; simpl.
  - now rewrite filter_none_negb.
  - reflexivity.
Qed.

Lemma ncei_truncate_filter y rows :
  Ncei.truncate y (Some rows)
  = Some (filter (fun r => negb (Ncei.year_is y r)) rows).
Proof.
  unfold Ncei.truncate.
  destruct (filter (Ncei.year_is y) rows) eqn:E; simpl.
  - now rewrite filter_none_negb.
  - reflexivity.
Qed.

Lemma storm_files_sorted s listing since :
  StronglySorted name_le (Storm.files (Storm.prepare s listing since)).
Proof.
  unfold Storm.prepare, Storm.filter_watermark, Storm.filter_since; simpl.
  pose proof (sort_sorted listing) as H.
  destruct (Storm.max_year s); destruct (Py.truthy_opt since);
    destruct since; auto using filter_sorted.
Qed.

Lemma ncei_files_sorted s listing since t s' files :
  Ncei.prepare s listing since = Ncei.Started t s' files ->
  StronglySorted name_le files.
Proof.
  unfold Ncei.prepare. pose proof (sort_sorted listing) as Hs.
  destruct (Ncei.filter_since since (Py.sort listing)) as [l|] eqn:E1; [|discriminate].
  assert (StronglySorted name_le l) as Hl.
  { unfold Ncei.filter_since in E1.
    destruct (Py.truthy_opt since); [destruct since|];
      try (inversion E1; subst; exact Hs).
    eapply filter_raising_sorted; eauto. }
  destruct (Ncei.max_year s) as [y|].
  - destruct (Ncei.filter_watermark (Some y) l) as [l'|] eqn:E2; [|discriminate].
    intros H; inversion H; subst.
    eapply filter_raising_sorted; eauto.
  - intros H; inversion H; subst. exact Hl.
Qed.

(** ** The pipeline: schedules and invariants *)

Lemma run_app a b s :
  run (a ++ b) s = match run a s with Some s' => run b s' | None => None end.
Proof.
  revert s. induction a as [|x a IH]; intros s; simpl; [reflexivity|].
  destruct (step x s); [apply IH|reflexivity].
Qed.

(** A property kept by every step holds along every schedule. *)
Lemma run_invariant (I : state -> Prop) :
  (forall a s s', I s -> step a s = Some s' -> I s') ->
  forall sched s s', I s -> run sched s = Some s' -> I s'.
Proof.
  intros Hstep. induction sched as [|a sched IH]; simpl; intros s s' Hs Hr.
  - now inversion Hr; subst.
  - destruct (step a s) as [s1|] eqn:E; [|discriminate].
    eapply IH; [|exact Hr]. eapply Hstep; eauto.
Qed.

Lemma present_In f st : present f st = true <-> In f st.
Proof.
  unfold present. rewrite existsb_exists. split.
  - intros (x & Hx & E). apply String.eqb_eq in E. now subst.
  - intros H. exists f. split; [exact H|apply String.eqb_refl].
Qed.

Lemma present_false f st : present f st = false <-> ~ In f st.
Proof.
  rewrite <- present_In. destruct (present f st); split; congruence.
Qed.

Lemma delete_In f g st : In g (delete f st) <-> In g st /\ f <> g.
Proof.
  unfold delete. rewrite filter_In, negb_true_iff, String.eqb_neq. tauto.
Qed.

Lemma create_In f g st : In g (create f st) <-> g = f \/ In g st.
Proof.
  unfold create. destruct (present f st) eqn:E.
  - apply present_In in E. split; [tauto|]. intros [->|H]; assumption.
  - rewrite in_app_iff. simpl. split; intros H; intuition.
Qed.

Lemma create_length f st : (List.length (create f st) <= S (List.length st))%nat.
Proof.
  unfold create. destruct (present f st); [lia|].
  rewrite length_app. simpl. lia.
Qed.

Lemma delete_length f st :
  In f st -> (S (List.length (delete f st)) <= List.length st)%nat.
Proof.
  unfold delete. induction st as [|a st IH]; simpl; [tauto|].
  intros [->|H].
  - rewrite String.eqb_refl. simpl.
    pose proof (filter_length_le (fun g => negb (f =? g)%string) st). lia.
  - specialize (IH H). destruct (negb (f =? a)%string); simpl; lia.
Qed.

(** Splitting a step into the moves of the code. *)
Ltac break_match H :=
  repeat match type of H with
    | context [match ?x with _ => _ end] =>
        let E := fresh "E" in destruct x eqn:E; simpl in H; try discriminate H
    end.

Ltac step_cases H :=
  match type of H with
  | step ?a ?s = Some ?s' =>
      unfold step, fetcher_step, main_step, log in H;
      destruct a; destruct s; simpl in *;
      break_match H; inversion H; subst; clear H; simpl in *
  end.

Ltac room :=
  unfold maxsize in *;
  repeat match goal with
    | H : (_ <? _)%nat = true |- _ => apply Nat.ltb_lt in H
    | H : (_ <? _)%nat = false |- _ => apply Nat.ltb_ge in H
    end.

Ltac obs :=
  unfold pushes, pushed_files, loads, downloads, removals, fetched,
    queue_files in *;
  rewrite ?flat_map_app in *; simpl in *; rewrite ?app_nil_r in *.


(** Unless it has returned or waits at a full queue, [download_files]
    has a move, and the move brings it nearer to its return. *)
Lemma fetcher_enabled s ok :
  exited (fetcher s) = false ->
  (putting (fetcher s) = true -> (List.length (queue s) < maxsize)%nat) ->
  exists s',
    step (FetcherStep ok) s = Some s'
    /\ (budget (fetcher s') < budget (fetcher s))%nat
    /\ main s' = main s /\ stop s' = stop s.
Proof.
  intros X L. simpl. unfold fetcher_step.
  destruct (fetcher s) as [[|f rest]|f rest|f rest|f rest|r|r]; simpl in *;
    try discriminate;
    try (specialize (L eq_refl); apply Nat.ltb_lt in L; rewrite L);
    repeat match goal with
      | |- context [if ?b then _ else _] => destruct b
      end;
    eexists; (split; [reflexivity|]); simpl; repeat split; lia.
Qed.

Lemma step_budget a s s' :
  step a s = Some s' ->
  (match a with FetcherStep _ => 1 | _ => 0 end + budget (fetcher s')
   <= budget (fetcher s))%nat.
Proof.
  intros H. step_cases H; simpl; lia.
Qed.

(** [download_files] makes at most [budget] moves, whatever the schedule. *)
Lemma run_budget sched :
  forall s s', run sched s = Some s' ->
               (fetcher_moves sched + budget (fetcher s') <= budget (fetcher s))%nat.
Proof.
  induction sched as [|a sched IH]; simpl; intros s s' H.
  - inversion H; subst. unfold fetcher_moves. simpl. lia.
  - destruct (step a s) as [s1|] eqn:E; [|discriminate].
    pose proof (step_budget a s s1 E) as B. specialize (IH s1 s' H).
    unfold fetcher_moves in *. simpl. destruct a; simpl in *; lia.
Qed.

(** The loop of [download_files] is left towards the [finally] clause
    only. *)
Lemma loop_exit_step a s s' :
  step a s = Some s' -> in_loop (fetcher s) = true -> in_loop (fetcher s') = false ->
  exists r, fetcher s' = FFinally r.
Proof.
  intros H. step_cases H; intros A B; try discriminate; try congruence; eauto.
Qed.

Section Flow.

Variable wm : option Z.
Variable files : list string.

Lemma reachable_invariant (I : state -> Prop) :
  I (start wm files) ->
  (forall a s s', reachable wm files s -> I s -> step a s = Some s' -> I s') ->
  forall s, reachable wm files s -> I s.
Proof.
  intros H0 Hstep s Hr.
  assert (reachable wm files s /\ I s) as [_ H]; [|exact H].
  destruct Hr as [sched Hr].
  apply (run_invariant (fun s => reachable wm files s /\ I s)) with sched (start wm files); auto.
  - intros a s1 s2 [[sc Hs1] HI] Hs. split.
    + exists (sc ++ [a]). rewrite run_app, Hs1. simpl. now rewrite Hs.
    + apply (Hstep a s1); auto. now exists sc.
  - split; [now exists []|exact H0].
Qed.

Lemma reachable_run s sched s' :
  reachable wm files s -> run sched s = Some s' -> reachable wm files s'.
Proof.
  intros [sc H] Hr. exists (sc ++ sched). now rewrite run_app, H.
Qed.

(** The queue never holds more than [maxsize] items. *)
Lemma queue_bounded s : reachable wm files s -> (List.length (queue s) <= maxsize)%nat.
Proof.
  revert s. apply reachable_invariant; [simpl; unfold maxsize; lia|].
  intros a s0 s' _ I H.
  step_cases H; room; rewrite ?length_app; simpl in *; lia.
Qed.


Lemma start_quiet :
  pushes (trace (start wm files)) = [] /\ pushed_files (trace (start wm files)) = []
  /\ loads (trace (start wm files)) = [] /\ fetched (trace (start wm files)) = []
  /\ downloads (trace (start wm files)) = [] /\ removals (trace (start wm files)) = [].
Proof. unfold start. destruct wm; simpl; repeat split. Qed.

(** Everything pushed is a run of files, closed by the marker exactly when
    [download_files] has returned. *)
Lemma pushes_shape s :
  reachable wm files s ->
  pushes (trace s)
  = map File (pushed_files (trace s))
    ++ (if exited (fetcher s) then [EndOfFiles] else []).
Proof.
  revert s. apply reachable_invariant.
  - destruct start_quiet as (-> & -> & _). reflexivity.
  - intros a s0 s' _ I H.
    step_cases H; obs; rewrite ?app_nil_r in *; auto;
      rewrite I, ?map_app, ?app_nil_r; reflexivity.
Qed.

(** The queue is first-in first-out: what was pushed is what was loaded,
    what is being loaded and what still waits, in this order. *)
Lemma fifo s :
  reachable wm files s ->
  pushed_files (trace s)
  = loads (trace s) ++ current (main s) ++ queue_files (queue s).
Proof.
  revert s. apply reachable_invariant.
  - destruct start_quiet as (_ & -> & -> & _). reflexivity.
  - intros a s0 s' _ I H.
    step_cases H; obs; rewrite ?app_nil_r in *; auto;
      rewrite I, <- ?app_assoc; simpl; rewrite ?app_nil_r; reflexivity.
Qed.


Lemma marker_head_nil q tl :
  EndOfFiles :: q = map File (queue_files q) ++ tl -> tl = EndOfFiles :: q.
Proof.
  destruct (queue_files q); simpl; [congruence|discriminate].
Qed.

(** The marker sits at the end of the queue from the moment
    [download_files] returns until the loop takes it. *)
Lemma queue_shape s :
  reachable wm files s ->
  queue s
  = map File (queue_files (queue s))
    ++ (if exited (fetcher s) && negb (marker_taken (main s))
        then [EndOfFiles] else [])
  /\ (marker_taken (main s) = true -> exited (fetcher s) = true /\ queue s = []).
Proof.
  revert s. apply reachable_invariant.
  - simpl. split; [reflexivity|discriminate].
  - intros a s0 s' _ [I1 I2] H.
    step_cases H; unfold marker_taken in *; simpl in *;
      try (split; [exact I1 || (simpl in I1; congruence)|exact I2]).
    + (* a file is pushed *)
      assert (queue_files (queue0 ++ [File f]) = queue_files queue0 ++ [f]) as ->
          by (unfold queue_files; now rewrite flat_map_app).
      rewrite map_app, app_nil_r in *. simpl. split; [congruence|].
      intros M. destruct (I2 M). discriminate.
    + (* the marker is pushed *)
      assert (queue_files (queue0 ++ [EndOfFiles]) = queue_files queue0) as ->
          by (unfold queue_files; rewrite flat_map_app; apply app_nil_r).
      rewrite app_nil_r in I1.
      destruct (exit_of main0) as [[]|]; simpl in *;
        try (split; [congruence|discriminate]).
      destruct I2; [reflexivity|discriminate].
    + (* a file is taken *)
      rewrite andb_true_r in *. split; [|discriminate].
      destruct (exited fetcher0); simpl in *; congruence.
    + (* the marker is taken *)
      rewrite andb_true_r in I1. apply marker_head_nil in I1.
      destruct (exited fetcher0); simpl in *; [|discriminate].
      inversion I1; subst. simpl. auto.
Qed.


(** The loop is left on [queue.Empty] only with the flag set. *)
Lemma cancel_needs_flag s :
  reachable wm files s -> exit_of (main s) = Some ByCancel -> stop s = true.
Proof.
  revert s.
  apply (reachable_invariant
           (fun s => exit_of (main s) = Some ByCancel -> stop s = true)).
  - discriminate.
  - intros a s0 s' _ I H.
    step_cases H; intros X; try discriminate X; auto.
Qed.


(** Local storage never holds more than the file being loaded, the files
    in the queue and the one [download_files] has in hand (or left behind
    by a failed transfer); it is empty after the [with] block. *)
Lemma staging_bounded s :
  reachable wm files s ->
  (List.length (staging s)
   <= holds_main (main s) + List.length (queue_files (queue s))
      + holds_fetcher (fetcher s))%nat
  /\ (tmp_alive (main s) = false -> staging s = []).
Proof.
  revert s. apply reachable_invariant.
  - simpl. split; [lia|discriminate].
  - intros a s0 s' _ [I J] H.
    step_cases H; room; obs; rewrite ?length_app in *; simpl in *;
      try (split; [lia|assumption || discriminate]).
    all: repeat match goal with
           | E : present _ _ = true |- _ => apply present_In in E
           | E : negb _ = false |- _ => apply negb_false_iff in E
           end.
    all: try match goal with
           | |- context [create ?f ?st] => pose proof (create_length f st)
           end.
    all: try match goal with
           | E : In ?f ?st |- context [delete ?f ?st] =>
               pose proof (delete_length f st E)
           end.
    all: split; [lia|intros X; try discriminate X; try congruence; auto].
    exfalso. rewrite (J X) in *. assumption.
Qed.


(** The coordinator's entries stay at the head of the log. *)
Lemma log_prefix s :
  reachable wm files s -> exists r, trace s = Run.coordinator_log wm ++ r.
Proof.
  revert s. apply reachable_invariant.
  - exists []. simpl. now rewrite app_nil_r.
  - intros a s0 s' _ [r I] H.
    step_cases H; subst; eauto; rewrite <- app_assoc; eauto.
Qed.

(** Transfers are attempted in the order of the list. *)
Lemma fetched_prefix s :
  reachable wm files s ->
  exists tl, files = fetched (trace s) ++ tl
             /\ (in_loop (fetcher s) = true -> tl = rest_of (fetcher s)).
Proof.
  revert s. apply reachable_invariant.
  - exists files. destruct start_quiet as (_ & _ & _ & -> & _). auto.
  - intros a s0 s' _ (tl & I & J) H. revert I J.
    step_cases H; intros I J; obs; rewrite ?app_nil_r; simpl in *;
      try (exists tl; split; [assumption|assumption || discriminate]);
      try (specialize (J eq_refl); subst tl;
           eexists; rewrite <- app_assoc; simpl;
           split; [eassumption|auto || discriminate]).
Qed.

(** Files are pushed in the order of the list. *)
Lemma pushed_prefix s :
  reachable wm files s ->
  exists tl, files = pushed_files (trace s) ++ tl
             /\ (in_loop (fetcher s) = true ->
                 tl = in_hand (fetcher s) ++ rest_of (fetcher s)).
Proof.
  revert s. apply reachable_invariant.
  - exists files. destruct start_quiet as (_ & -> & _). auto.
  - intros a s0 s' _ (tl & I & J) H. revert I J.
    step_cases H; intros I J; obs; rewrite ?app_nil_r; simpl in *;
      try (exists tl; split; [assumption|assumption || discriminate]);
      try (specialize (J eq_refl); subst tl;
           eexists; rewrite <- app_assoc; simpl;
           split; [eassumption|auto || discriminate]).
Qed.

(** While nothing was cancelled and nothing raised, every file of the list
    is accounted for, in order. *)
Lemma account s :
  reachable wm files s -> undisturbed s ->
  files = loads (trace s) ++ current (main s) ++ queue_files (queue s)
          ++ in_hand (fetcher s) ++ rest_of (fetcher s).
Proof.
  revert s.
  apply (reachable_invariant
           (fun s => undisturbed s ->
                     files = loads (trace s) ++ current (main s)
                             ++ queue_files (queue s)
                             ++ in_hand (fetcher s) ++ rest_of (fetcher s))).
  - intros _. destruct start_quiet as (_ & _ & -> & _). reflexivity.
  - intros a s0 s' _ I H. unfold undisturbed in *.
    revert I.
    step_cases H; intros I (U1 & U2 & U3 & U4); try discriminate; try congruence;
      obs; rewrite ?app_nil_r in *; simpl in *;
      try (rewrite I by (repeat split; congruence);
           rewrite <- ?app_assoc; simpl; rewrite ?app_nil_r; reflexivity).
    Qed.



(** *** With distinct names in the listing *)

Section Store.

Hypothesis files_nodup : NoDup files.

(** The files in flight and the files still to fetch are all distinct. *)
Lemma in_flight_nodup s :
  reachable wm files s ->
  NoDup (current (main s) ++ queue_files (queue s)
         ++ in_hand (fetcher s) ++ rest_of (fetcher s)).
Proof.
  revert s. apply reachable_invariant.
  - exact files_nodup.
  - intros a s0 s' _ I H.
    step_cases H; obs; rewrite ?app_nil_r in *; simpl in *;
      rewrite <- ?app_assoc; simpl; auto;
      try (now inversion I);
      try (eapply NoDup_app_remove_r; rewrite <- ?app_assoc; simpl; exact I).
Qed.


(** Until the [with] block is left, every file in flight is in local
    storage. *)
Lemma in_flight_staged s :
  reachable wm files s ->
  tmp_alive (main s) = true ->
  forall f, In f (current (main s) ++ queue_files (queue s)
                  ++ in_hand (fetcher s)) -> In f (staging s).
Proof.
  revert s.
  apply (reachable_invariant
           (fun s => tmp_alive (main s) = true ->
                     forall f, In f (current (main s) ++ queue_files (queue s)
                                     ++ in_hand (fetcher s)) ->
                               In f (staging s))).
  - simpl. tauto.
  - intros a s0 s' R I H. pose proof (in_flight_nodup _ R) as N.
    step_cases H; obs; rewrite ?app_nil_r in *; simpl in *;
      intros A g G; try discriminate A;
      try (apply I; [assumption || reflexivity
                    |rewrite ?in_app_iff in *; simpl in *; tauto]).
    1, 2: apply create_In; rewrite ?in_app_iff in G; simpl in G;
      try (destruct G as [G|[G|[G|[]]]]; [| |now left]);
      right; apply I; auto; rewrite ?in_app_iff; tauto.
    + apply delete_In. split.
      * apply I; auto. rewrite !in_app_iff in *. simpl. tauto.
      * intros <-. rewrite app_assoc in N. apply NoDup_remove_2 in N.
        apply N. rewrite !in_app_iff in *. tauto.
    + apply delete_In. inversion N as [|x l Hx Hl]; subst. split.
      * apply I; auto.
      * intros <-. apply Hx. rewrite !in_app_iff in *. tauto.
    + apply delete_In. inversion N as [|x l Hx Hl]; subst. split.
      * apply I; auto.
      * intros <-. apply Hx. rewrite !in_app_iff in *. tauto.
Qed.


(** [os.remove] never raises inside the loop: the loop is left by the
    marker or by cancellation only. *)
Lemma never_crashes s : reachable wm files s -> exit_of (main s) <> Some ByError.
Proof.
  revert s. apply reachable_invariant.
  - discriminate.
  - intros a s0 s' R I H. pose proof (in_flight_staged _ R) as P.
    step_cases H; try discriminate; try assumption.
    all: match goal with E : present _ _ = false |- _ =>
           apply present_false in E; exfalso; apply E end.
    all: apply P; [reflexivity|]; now left.
Qed.







(** *** [download_files] gets to put the marker while the loop polls *)

(** A loop that is at [get] or inside its body can make room in the
    queue. *)
Lemma unblock s :
  reachable wm files s -> exited (fetcher s) = false ->
  main s = LGet \/ (exists g, main s = LProcess g) ->
  exists sched s',
    run sched s = Some s' /\ fetcher s' = fetcher s /\ stop s' = stop s
    /\ (main s' = LGet \/ exists g, main s' = LProcess g)
    /\ (List.length (queue s') <? maxsize)%nat = true.
Proof.
  intros R X M.
  assert (forall s, reachable wm files s -> exited (fetcher s) = false -> main s = LGet ->
          exists sched s',
            run sched s = Some s' /\ fetcher s' = fetcher s /\ stop s' = stop s
            /\ (main s' = LGet \/ exists g, main s' = LProcess g)
            /\ (List.length (queue s') <? maxsize)%nat = true) as G.
  { clear s R X M. intros s R X M.
    pose proof (queue_bounded _ R) as B.
    destruct (queue_shape _ R) as [Q _]. rewrite X in Q. simpl in Q.
    destruct (queue s) as [|[f|] q] eqn:Eq.
    - exists [], s. simpl. rewrite Eq. repeat split; auto.
    - exists [MainStep true]. eexists. simpl. unfold main_step.
      rewrite M, Eq. split; [reflexivity|]. simpl in *.
      repeat split; eauto. apply Nat.ltb_lt. unfold maxsize in *. lia.
    - simpl in Q. apply marker_head_nil in Q. discriminate. }
  destruct M as [M|[g M]]; [now apply G|].
  assert (present g (staging s) = true) as P.
  { apply present_In. apply (in_flight_staged _ R); rewrite M; [reflexivity|].
    now left. }
  destruct (step (MainStep true) s) as [s1|] eqn:E1;
    [|simpl in E1; unfold main_step in E1; rewrite M, P in E1; discriminate].
  assert (fetcher s1 = fetcher s /\ stop s1 = stop s /\ main s1 = LGet)
    as (F1 & S1 & M1).
  { simpl in E1. unfold main_step in E1. rewrite M, P in E1.
    inversion E1; subst. simpl. auto. }
  assert (reachable wm files s1) as R1.
  { apply reachable_run with s [MainStep true]; [exact R|].
    cbn [run]. now rewrite E1. }
  destruct (G s1 R1) as (sched & s2 & Hr & F2 & S2 & M2 & L2); [congruence|exact M1|].
  exists (MainStep true :: sched), s2. cbn [run]. rewrite E1.
  repeat split; try congruence; auto.
Qed.

Lemma completes_while_polling n :
  forall s, reachable wm files s ->
            main s = LGet \/ (exists g, main s = LProcess g) ->
            (budget (fetcher s) <= n)%nat ->
  exists sched s',
    run sched s = Some s' /\ exited (fetcher s') = true
    /\ (main s' = LGet \/ exists g, main s' = LProcess g).
Proof.
  induction n as [|n IH]; intros s R M D.
  - exists [], s. split; [reflexivity|]. split; [|exact M].
    destruct (fetcher s); simpl in *; auto; lia.
  - destruct (exited (fetcher s)) eqn:X; [exists [], s; auto|].
    destruct (unblock s R X M) as (sc1 & s1 & Hr1 & F1 & S1 & M1 & L1).
    assert (reachable wm files s1) as R1 by (eapply reachable_run; eauto).
    assert (exited (fetcher s1) = false) as X1 by congruence.
    destruct (fetcher_enabled s1 true X1 (fun _ => proj1 (Nat.ltb_lt _ _) L1))
      as (s2 & E2 & B2 & M2 & _).
    assert (reachable wm files s2) as R2.
    { apply reachable_run with s1 [FetcherStep true]; [exact R1|].
      cbn [run]. now rewrite E2. }
    destruct (IH s2 R2) as (sc3 & s3 & Hr3 & X3 & M3).
    { now rewrite M2. }
    { rewrite F1 in B2. lia. }
    exists (sc1 ++ FetcherStep true :: sc3), s3.
    rewrite run_app, Hr1. cbn [run]. rewrite E2. auto.
Qed.

(** Unless the loop was left on cancellation, or is about to be,
    [download_files] can be scheduled to its return. *)
Lemma fetcher_completes s :
  reachable wm files s ->
  exit_of (main s) <> Some ByCancel -> (main s = LEmpty -> stop s = false) ->
  exists sched s', run sched s = Some s' /\ exited (fetcher s') = true.
Proof.
  intros R C T.
  destruct (main s) as [| |g|r|r] eqn:M.
  - destruct (completes_while_polling (budget (fetcher s)) s R)
      as (sc & s' & Hr & X & _); eauto.
  - specialize (T eq_refl).
    assert (step (MainStep true) s
            = Some (mk_state (stop s) (queue s) (fetcher s) LGet (staging s) (trace s)))
      as E by (simpl; unfold main_step; now rewrite M, T).
    assert (reachable wm files
              (mk_state (stop s) (queue s) (fetcher s) LGet (staging s) (trace s))) as R1.
    { apply reachable_run with s [MainStep true]; [exact R|]. cbn [run]. now rewrite E. }
    destruct (completes_while_polling _ _ R1 (or_introl eq_refl) (Nat.le_refl _))
      as (sc & s' & Hr & X & _).
    exists (MainStep true :: sc), s'. cbn [run]. rewrite E. auto.
  - destruct (completes_while_polling (budget (fetcher s)) s R)
      as (sc & s' & Hr & X & _); eauto.
  - exists [], s. split; [reflexivity|]. destruct r.
    + destruct (queue_shape _ R) as [_ Q]. apply Q. unfold marker_taken. now rewrite M.
    + simpl in C. congruence.
    + exfalso. apply (never_crashes _ R). now rewrite M.
  - exists [], s. split; [reflexivity|]. destruct r.
    + destruct (queue_shape _ R) as [_ Q]. apply Q. unfold marker_taken. now rewrite M.
    + simpl in C. congruence.
    + exfalso. apply (never_crashes _ R). now rewrite M.
Qed.

End Store.

End Flow.

(** * The claims *)

(** ** Coordinator *)

Lemma storm_year_absent_truncate y s : storm_year_absent y (Storm.truncate y s).
Proof.
  intros rows r E Hin. destruct s as [rows0|]; [|discriminate].
  rewrite storm_truncate_filter in E. inversion E; subst.
  apply filter_In in Hin as [_ Hn]. unfold Storm.year_is in Hn.
  intros Y. rewrite Y, Z.eqb_refl in Hn. discriminate.
Qed.

Lemma ncei_year_absent_truncate y s : ncei_year_absent y (Ncei.truncate y s).
Proof.
  intros rows r d E Hin D. destruct s as [rows0|]; [|discriminate].
  rewrite ncei_truncate_filter in E. inversion E; subst.
  apply filter_In in Hin as [_ Hn]. unfold Ncei.year_is in Hn.
  rewrite D in Hn. intros Y. rewrite Y, Z.eqb_refl in Hn. discriminate.
Qed.

Lemma truncated_first_init y files : truncated_first y (init [Truncated y] files).
Proof.
  intros sched st Hr.
  destruct (log_prefix (Some y) files st) as [r E]; [now exists sched|].
  exists r. exact E.
Qed.

Lemma storm_max_year_iff s y :
  Storm.max_year s = Some y
  <-> exists m, Storm.max_date s = Some m /\ m <> 0 /\ m / 100 <> 0 /\ y = m / 100.
Proof.
  unfold Storm.max_year, Py.truthy. split.
  - destruct (Storm.max_date s) as [m|]; [|discriminate].
    destruct (Z.eqb_spec m 0); simpl; [discriminate|].
    destruct (Z.eqb_spec (m / 100) 0); simpl; [discriminate|].
    intros E. inversion E; subst. eauto.
  - intros (m & -> & A & B & ->).
    apply Z.eqb_neq in A, B. now rewrite A, B.
Qed.

(** C1, as the code has it.  Storm events: a truncation year is derived
    exactly when [MAX(BEGIN_YEARMONTH)] is neither NULL nor 0 and its year
    part [max_date // 100] is not 0; then the rows whose [YEAR] is that
    year are deleted, the other rows are kept, and the deletion is logged
    ahead of everything the two stages do; otherwise the sink is left as it
    is.  NCEI: when [MAX(date)] is not NULL and the [since_year]
    comprehension has not raised, the rows of the year of that date are
    deleted and the others kept; then either the stages start, with the
    deletion ahead of everything they do, or the second comprehension
    raises, the rows being already deleted.  When [MAX(date)] is NULL
    nothing is deleted, and when the [since_year] comprehension raises
    nothing has been deleted. *)
Theorem truncation_precedes_pipeline :
  (forall s listing since,
      let p := Storm.prepare s listing since in
      (forall y, Storm.truncated p = Some y
                 <-> exists m, Storm.max_date s = Some m /\ m <> 0
                               /\ m / 100 <> 0 /\ y = m / 100)
      /\ (Storm.truncated p = None ->
          Storm.sink_after p = s /\ trace (Run.storm s listing since) = [])
      /\ (forall m,
             Storm.max_date s = Some m -> m <> 0 -> m / 100 <> 0 ->
             Storm.truncated p = Some (m / 100)
             /\ (forall rows,
                    s = Some rows ->
                    Storm.sink_after p
                    = Some (filter (fun r => negb (Storm.year_is (m / 100) r)) rows))
             /\ storm_year_absent (m / 100) (Storm.sink_after p)
             /\ truncated_first (m / 100) (Run.storm s listing since)))
  /\ (forall s listing since d l,
         Ncei.max_date s = Some d ->
         Ncei.filter_since since (Py.sort listing) = Some l ->
         (forall rows,
             s = Some rows ->
             Ncei.truncate (Ncei.year d) s
             = Some (filter (fun r => negb (Ncei.year_is (Ncei.year d) r)) rows))
         /\ ncei_year_absent (Ncei.year d) (Ncei.truncate (Ncei.year d) s)
         /\ ((exists files,
                 Ncei.prepare s listing since
                 = Ncei.Started (Some (Ncei.year d))
                     (Ncei.truncate (Ncei.year d) s) files
                 /\ Ncei.filter_watermark (Some (Ncei.year d)) l = Some files
                 /\ Run.ncei s listing since = Some (start (Some (Ncei.year d)) files)
                 /\ truncated_first (Ncei.year d) (start (Some (Ncei.year d)) files))
             \/ (Ncei.prepare s listing since
                 = Ncei.RaisedAfterTruncate (Ncei.year d)
                     (Ncei.truncate (Ncei.year d) s)
                 /\ Ncei.filter_watermark (Some (Ncei.year d)) l = None)))
  /\ (forall s listing since,
         (forall l, Ncei.max_date s = None ->
                    Ncei.filter_since since (Py.sort listing) = Some l ->
                    Ncei.prepare s listing since = Ncei.Started None s l)
         /\ (Ncei.filter_since since (Py.sort listing) = None ->
             Ncei.prepare s listing since = Ncei.RaisedBeforeTruncate)).
Proof.
  split; [|split].
  - intros s listing since p. unfold p, Run.storm, Storm.prepare. simpl.
    split; [intros y; apply storm_max_year_iff|]. split.
    + intros ->. simpl. auto.
    + intros m D A B.
      assert (Storm.max_year s = Some (m / 100)) as ->
          by (apply storm_max_year_iff; eauto).
      simpl. split; [reflexivity|]. split; [|split].
      * intros rows ->. apply storm_truncate_filter.
      * apply storm_year_absent_truncate.
      * apply truncated_first_init.
  - intros s listing since d l D E. split; [|split].
    + intros rows ->. apply ncei_truncate_filter.
    + apply ncei_year_absent_truncate.
    + unfold Run.ncei, Ncei.prepare, Ncei.max_year. rewrite E, D. simpl.
      destruct (Py.filter_raising _ l) as [l'|]; [left|right; auto].
      exists l'. repeat split. apply truncated_first_init.
  - intros s listing since. unfold Ncei.prepare, Ncei.max_year. split.
    + intros l D E. now rewrite E, D.
    + intros E. now rewrite E.
Qed.

Lemma truncation_precedes_pipeline_witness :
  Storm.max_date sink_2024 = Some 202403
  /\ Storm.truncated (Storm.prepare sink_2024 listing_2023_2025 None) = Some 2024
  /\ Storm.sink_after (Storm.prepare sink_2024 listing_2023_2025 None)
     = Some [Storm.mk_row (Some 202311) (Some 2023)]
  /\ exists r,
      option_map trace
        (run (fetch_one ++ [MainStep true])
           (Run.storm sink_2024 listing_2023_2025 None))
      = Some (Truncated 2024 :: r).
Proof.
  destruct (proj1 truncation_precedes_pipeline sink_2024 listing_2023_2025 None)
    as (_ & _ & G).
  destruct (G 202403 eq_refl ltac:(lia) ltac:(discriminate)) as (T & E & _ & F).
  split; [reflexivity|]. split; [exact T|].
  split; [rewrite (E _ eq_refl); reflexivity|].
  destruct (run (fetch_one ++ [MainStep true])
              (Run.storm sink_2024 listing_2023_2025 None)) as [st|] eqn:Hr;
    [|discriminate].
  destruct (F _ _ Hr) as [r T']. exists r. simpl. now rewrite T'.
Defined.

(** C1 as stated fails: a sink whose rows all have a [BEGIN_YEARMONTH]
    below 100 has a watermark, yet nothing is deleted. *)
Lemma truncation_skipped_for_year_zero :
  let s := Some [Storm.mk_row (Some 12) (Some 0)] in
  Storm.max_date s = Some 12
  /\ Storm.truncated (Storm.prepare s listing_2023_2025 None) = None
  /\ Storm.sink_after (Storm.prepare s listing_2023_2025 None) = s
  /\ trace (Run.storm s listing_2023_2025 None) = [].
Proof. repeat split. Qed.

(** C10.  [since_year = 0] is false in [if since_year:], so the list of
    candidates, the truncation and the sink are those of a run without
    [since_year], in both tools. *)
Theorem since_zero_is_no_filter :
  (forall s listing,
      Storm.prepare s listing (Some 0) = Storm.prepare s listing None)
  /\ (forall s listing,
         Ncei.prepare s listing (Some 0) = Ncei.prepare s listing None).
Proof. split; reflexivity. Qed.

Lemma storm_keeps_iff b f y :
  Storm.extract_year_from_filename f = Some y -> y <> 0 ->
  Storm.keeps b f = true <-> b <= y.
Proof.
  intros E Y. unfold Storm.keeps, Py.truthy. rewrite E.
  apply Z.eqb_neq in Y. rewrite Y. simpl. apply Z.leb_le.
Qed.

Lemma storm_filter_since_in since files f y :
  Storm.extract_year_from_filename f = Some y -> y <> 0 ->
  In f (Storm.filter_since since files)
  <-> In f files /\ (forall b, since = Some b -> b <> 0 -> b <= y).
Proof.
  intros E Y. unfold Storm.filter_since, Py.truthy_opt, Py.truthy.
  destruct since as [b|]; simpl.
  - destruct (b =? 0) eqn:B; simpl.
    + apply Z.eqb_eq in B. split; [|tauto].
      intros H. split; [exact H|]. intros b' Hb. inversion Hb; subst. tauto.
    + apply Z.eqb_neq in B. rewrite filter_In, (storm_keeps_iff b f y E Y).
      split; intros [H1 H2]; split; auto.
      intros b' Hb. inversion Hb; subst. auto.
  - split; [|tauto]. intros H. split; [exact H|discriminate].
Qed.

Lemma storm_filter_watermark_in wm files f y :
  Storm.extract_year_from_filename f = Some y -> y <> 0 ->
  In f (Storm.filter_watermark wm files)
  <-> In f files /\ (forall w, wm = Some w -> w <= y).
Proof.
  intros E Y. unfold Storm.filter_watermark. destruct wm as [w|].
  - rewrite filter_In, (storm_keeps_iff w f y E Y).
    split; intros [H1 H2]; split; auto.
    intros w' Hw. inversion Hw; subst. auto.
  - split; [|tauto]. intros H. split; [exact H|discriminate].
Qed.

Lemma ncei_filter_since_in since files l f y :
  Ncei.filter_since since files = Some l ->
  Py.int (Py.slice4 f) = Some y ->
  In f l <-> In f files /\ (forall b, since = Some b -> b <> 0 -> b <= y).
Proof.
  intros H E. unfold Ncei.filter_since, Py.truthy_opt, Py.truthy in H.
  destruct since as [b|]; simpl in H.
  - destruct (b =? 0) eqn:B; simpl in H.
    + apply Z.eqb_eq in B. inversion H; subst. split; [|tauto].
      intros X. split; [exact X|]. intros b' Hb. inversion Hb; subst. tauto.
    + apply Z.eqb_neq in B. apply filter_raising_some in H as [-> _].
      rewrite filter_In, E. simpl. rewrite Z.leb_le.
      split; intros [H1 H2]; split; auto.
      intros b' Hb. inversion Hb; subst. auto.
  - inversion H; subst. split; [|tauto]. intros X. split; [exact X|discriminate].
Qed.

Lemma ncei_filter_watermark_in wm files l f y :
  Ncei.filter_watermark wm files = Some l ->
  Py.int (Py.split_dot_0 f) = Some y ->
  In f l <-> In f files /\ (forall w, wm = Some w -> w <= y).
Proof.
  intros H E. unfold Ncei.filter_watermark in H. destruct wm as [w|].
  - apply filter_raising_some in H as [-> _].
    rewrite filter_In, E. simpl. rewrite Z.leb_le.
    split; intros [H1 H2]; split; auto.
    intros w' Hw. inversion Hw; subst. auto.
  - inversion H; subst. split; [|tauto]. intros X. split; [exact X|discriminate].
Qed.

(** C2, as the code has it.  A candidate with a non-zero period [y] is in
    the filtered list exactly when it is in the list, [y] is not below
    [since_year] (given and not 0) and [y] is not below the truncation
    year; so a candidate at the truncation year is retained whenever it is
    not below [since_year].  For the NCEI tool this is what the two
    comprehensions return when neither raises. *)
Theorem period_filter_exact :
  (forall since wm files f y,
      Storm.extract_year_from_filename f = Some y -> y <> 0 ->
      let kept := Storm.filter_watermark wm (Storm.filter_since since files) in
      (In f kept <-> In f files /\ passes since wm y)
      /\ (In f files -> wm = Some y ->
          (forall b, since = Some b -> b <> 0 -> b <= y) -> In f kept))
  /\ (forall since wm files l kept f y,
         Ncei.filter_since since files = Some l ->
         Ncei.filter_watermark wm l = Some kept ->
         Py.int (Py.slice4 f) = Some y -> Py.int (Py.split_dot_0 f) = Some y ->
         (In f kept <-> In f files /\ passes since wm y)
         /\ (In f files -> wm = Some y ->
             (forall b, since = Some b -> b <> 0 -> b <= y) -> In f kept)).
Proof.
  split.
  - intros since wm files f y E Y kept.
    assert (In f kept <-> In f files /\ passes since wm y) as K.
    { unfold kept, passes.
      rewrite (storm_filter_watermark_in wm _ f y E Y),
        (storm_filter_since_in since files f y E Y). tauto. }
    split; [exact K|]. intros F W S. apply K. split; [exact F|].
    split; [exact S|]. intros w Hw. rewrite W in Hw. inversion Hw. lia.
  - intros since wm files l kept f y H1 H2 E1 E2.
    assert (In f kept <-> In f files /\ passes since wm y) as K.
    { unfold passes.
      rewrite (ncei_filter_watermark_in wm l kept f y H2 E2),
        (ncei_filter_since_in since files l f y H1 E1). tauto. }
    split; [exact K|]. intros F W S. apply K. split; [exact F|].
    split; [exact S|]. intros w Hw. rewrite W in Hw. inversion Hw. lia.
Qed.

Lemma period_filter_exact_witness :
  Storm.extract_year_from_filename
    "StormEvents_details-ftp_v1.0_d2024_c20250520.csv.gz" = Some 2024
  /\ In "StormEvents_details-ftp_v1.0_d2024_c20250520.csv.gz"
       (Storm.filter_watermark (Some 2024)
          (Storm.filter_since (Some 2023) listing_2023_2025)).
Proof.
  split; [reflexivity|].
  apply (proj1 period_filter_exact (Some 2023) (Some 2024) listing_2023_2025
           "StormEvents_details-ftp_v1.0_d2024_c20250520.csv.gz" 2024
           eq_refl ltac:(lia)).
  - simpl. auto.
  - reflexivity.
  - intros b Hb _. inversion Hb. lia.
Defined.

(** C2 as stated fails: with [since_year] above the truncation year, the
    candidate of the truncation year itself is dropped. *)
Lemma tie_dropped_by_since :
  let s := Some [Storm.mk_row (Some 202005) (Some 2020)] in
  let f := "StormEvents_details-ftp_v1.0_d2020_c20200601.csv.gz" in
  Storm.max_year s = Some 2020
  /\ Storm.extract_year_from_filename f = Some 2020
  /\ Storm.files (Storm.prepare s [f] (Some 2022)) = [].
Proof. repeat split. Qed.

Lemma storm_keeps_none b f :
  Storm.extract_year_from_filename f = None -> Storm.keeps b f = false.
Proof. intros E. unfold Storm.keeps. now rewrite E. Qed.

Lemma storm_filter_watermark_incl wm files f :
  In f (Storm.filter_watermark wm files) -> In f files.
Proof.
  unfold Storm.filter_watermark. destruct wm; [|tauto].
  intros H. now apply filter_In in H.
Qed.

(** C8, as the code has it.  Storm events: a name without a year is dropped,
    without any failure, as soon as a [since_year] other than 0 or a
    truncation year is in effect; with neither it stays in the list.  NCEI:
    with neither in effect every name stays in the list; with a
    [since_year] other than 0 a name whose first four characters are not
    an integer makes the comprehension raise before anything is truncated,
    and with a truncation year alone a name whose part before the first
    dot is not an integer makes it raise after the truncation. *)
Theorem unparsable_names :
  (forall s listing since f,
      Storm.extract_year_from_filename f = None ->
      (Py.truthy_opt since = true \/ Storm.max_year s <> None ->
       ~ In f (Storm.files (Storm.prepare s listing since)))
      /\ (Py.truthy_opt since = false -> Storm.max_year s = None ->
          (In f (Storm.files (Storm.prepare s listing since)) <-> In f listing)))
  /\ (forall s listing since f,
         In f listing ->
         (Py.truthy_opt since = true -> Py.int (Py.slice4 f) = None ->
          Ncei.prepare s listing since = Ncei.RaisedBeforeTruncate)
         /\ (forall y, Py.truthy_opt since = false -> Ncei.max_year s = Some y ->
                       Py.int (Py.split_dot_0 f) = None ->
                       Ncei.prepare s listing since
                       = Ncei.RaisedAfterTruncate y (Ncei.truncate y s))
         /\ (Py.truthy_opt since = false -> Ncei.max_year s = None ->
             Ncei.prepare s listing since = Ncei.Started None s (Py.sort listing))).
Proof.
  split.
  - intros s listing since f E. split.
    + intros A Hin. unfold Storm.prepare in Hin. simpl in Hin.
      destruct (Storm.max_year s) as [y|] eqn:W.
      * unfold Storm.filter_watermark in Hin. apply filter_In in Hin as [_ K].
        rewrite (storm_keeps_none y f E) in K. discriminate.
      * destruct A as [A|A]; [|congruence].
        simpl in Hin. unfold Storm.filter_since in Hin. rewrite A in Hin.
        destruct since as [b|]; [|discriminate].
        apply filter_In in Hin as [_ K].
        rewrite (storm_keeps_none b f E) in K. discriminate.
    + intros A W. unfold Storm.prepare. simpl. rewrite W. simpl.
      unfold Storm.filter_since. rewrite A. apply sort_in.
  - intros s listing since f Hin. repeat split.
    + intros A E. unfold Ncei.prepare, Ncei.filter_since. rewrite A.
      destruct since as [b|]; [|discriminate].
      assert (Py.filter_raising
                (fun f0 => option_map (fun v => b <=? v) (Py.int (Py.slice4 f0)))
                (Py.sort listing) = None) as ->; [|reflexivity].
      apply filter_raising_none. exists f. split; [now apply sort_in|].
      now rewrite E.
    + intros y A W E. unfold Ncei.prepare, Ncei.filter_since. rewrite A, W.
      unfold Ncei.filter_watermark.
      assert (Py.filter_raising
                (fun f0 => option_map (fun v => y <=? v) (Py.int (Py.split_dot_0 f0)))
                (Py.sort listing) = None) as ->; [|reflexivity].
      apply filter_raising_none. exists f. split; [now apply sort_in|].
      now rewrite E.
    + intros A W. unfold Ncei.prepare, Ncei.filter_since. now rewrite A, W.
Qed.

Lemma unparsable_names_witness :
  Storm.extract_year_from_filename "StormEvents_details_readme.csv.gz" = None
  /\ ~ In "StormEvents_details_readme.csv.gz"
         (Storm.files
            (Storm.prepare sink_2024
               ("StormEvents_details_readme.csv.gz" :: listing_2023_2025)
               (Some 2023))).
Proof.
  assert (Storm.extract_year_from_filename "StormEvents_details_readme.csv.gz"
          = None) as E by (vm_compute; reflexivity).
  split; [exact E|].
  exact (proj1 (proj1 unparsable_names sink_2024
                  ("StormEvents_details_readme.csv.gz" :: listing_2023_2025)
                  (Some 2023) "StormEvents_details_readme.csv.gz" E)
           (or_introl eq_refl)).
Defined.

(** C8 as stated fails: with no filter in effect a name without a year
    stays among the candidates, and in the NCEI tool a name that is not a
    year makes the run raise. *)
Lemma unparsable_name_kept_or_fatal :
  let f := "StormEvents_details_readme.csv.gz" in
  Storm.extract_year_from_filename f = None
  /\ In f (Storm.files (Storm.prepare None [f] None))
  /\ Py.int (Py.slice4 "readme.csv.gz") = None
  /\ Ncei.prepare None ["2020.csv.gz"; "readme.csv.gz"] (Some 2000)
     = Ncei.RaisedBeforeTruncate.
Proof. simpl. repeat split. now left. Qed.

(** ** Fetcher, queue and loader *)

(** Runs a closed schedule and records the state it ends in. *)
Ltac run_to Hr sched s0 :=
  let r := eval vm_compute in (run sched s0) in
  assert (run sched s0 = r) as Hr by (vm_compute; reflexivity).

Lemma queue_files_length q : (List.length (queue_files q) <= List.length q)%nat.
Proof.
  induction q as [|[f|] q IH]; simpl; lia.
Qed.

Lemma downloads_fetched t f : In f (downloads t) -> In f (fetched t).
Proof.
  unfold downloads, fetched. rewrite !in_flat_map.
  intros (e & He & Hf). exists e. split; [exact He|].
  destruct e; simpl in *; tauto.
Qed.

Lemma finally_step s r ok :
  fetcher s = FFinally r -> (List.length (queue s) < maxsize)%nat ->
  step (FetcherStep ok) s
  = Some (mk_state (stop s) (queue s ++ [EndOfFiles]) (FExit r) (main s)
            (staging s) (trace s ++ [Pushed EndOfFiles])).
Proof.
  intros F L. apply Nat.ltb_lt in L. simpl. unfold fetcher_step, log.
  now rewrite F, L.
Qed.

(** C3, as the code has it.  Along every schedule: the items pushed so far
    are files only, closed by one marker exactly when [download_files] has
    returned; [download_files] makes at most four moves for each file and
    two more; unless it has returned or waits at a full queue it has a
    move; the loop (exhausted list, flag seen at either test, transfer
    error) is left towards the [finally] clause only; a put, of a file or
    of the marker in the [finally] clause, is one move that appends the
    item as soon as the queue has room; and, names being distinct,
    unless the main loop was left on cancellation or is about to be, there
    is a continuation in which [download_files] returns, with the marker
    pushed once and last. *)
Theorem one_marker_always_last :
  forall wm files sched s,
    run sched (start wm files) = Some s ->
    pushes (trace s)
    = map File (pushed_files (trace s))
      ++ (if exited (fetcher s) then [EndOfFiles] else [])
    /\ (fetcher_moves sched + budget (fetcher s) <= 4 * List.length files + 2)%nat
    /\ (forall ok,
           exited (fetcher s) = false ->
           (putting (fetcher s) = true -> (List.length (queue s) < maxsize)%nat) ->
           exists s', step (FetcherStep ok) s = Some s'
                      /\ (budget (fetcher s') < budget (fetcher s))%nat)
    /\ (forall a s',
           step a s = Some s' ->
           in_loop (fetcher s) = true -> in_loop (fetcher s') = false ->
           exists r, fetcher s' = FFinally r)
    /\ (forall ok,
           (fetcher s = FLoop [] ->
            exists s', step (FetcherStep ok) s = Some s' /\ fetcher s' = FFinally false)
           /\ (forall f rest, fetcher s = FLoop (f :: rest) -> stop s = true ->
                 exists s', step (FetcherStep ok) s = Some s'
                            /\ fetcher s' = FFinally false)
           /\ (forall f rest, fetcher s = FDownloaded f rest -> stop s = true ->
                 exists s' r, step (FetcherStep ok) s = Some s'
                              /\ fetcher s' = FFinally r)
           /\ (forall f rest, fetcher s = FTransfer f rest ->
                 exists s', step (FetcherStep false) s = Some s'
                            /\ fetcher s' = FFinally true))
    /\ (forall f rest ok,
           fetcher s = FPut f rest -> (List.length (queue s) < maxsize)%nat ->
           exists s', step (FetcherStep ok) s = Some s'
                      /\ fetcher s' = FLoop rest
                      /\ queue s' = queue s ++ [File f]
                      /\ pushes (trace s') = pushes (trace s) ++ [File f])
    /\ (forall r ok,
           fetcher s = FFinally r -> (List.length (queue s) < maxsize)%nat ->
           exists s', step (FetcherStep ok) s = Some s'
                      /\ fetcher s' = FExit r
                      /\ queue s' = queue s ++ [EndOfFiles]
                      /\ pushes (trace s') = pushes (trace s) ++ [EndOfFiles])
    /\ (NoDup files ->
        exit_of (main s) <> Some ByCancel -> (main s = LEmpty -> stop s = false) ->
        exists sched' s',
          run sched' s = Some s' /\ exited (fetcher s') = true
          /\ pushes (trace s') = map File (pushed_files (trace s')) ++ [EndOfFiles]).
Proof.
  intros wm files sched s Hr.
  assert (reachable wm files s) as R by (now exists sched).
  split; [now apply (pushes_shape wm files)|].
  split; [apply (run_budget _ _ _ Hr)|].
  split.
  { intros ok X L. destruct (fetcher_enabled s ok X L) as (s' & E & B & _). eauto. }
  split; [intros a s'; apply loop_exit_step|].
  split.
  { intros ok. simpl. unfold fetcher_step. repeat split.
    - intros ->. eexists. split; reflexivity.
    - intros f rest -> ->. eexists. split; reflexivity.
    - intros f rest -> ->.
      destruct (present f (staging s)); eexists; eexists; split; reflexivity.
    - intros f rest ->.
      destruct (negb (tmp_alive (main s))); eexists; split; reflexivity. }
  split.
  { intros f rest ok F L. apply Nat.ltb_lt in L.
    simpl. unfold fetcher_step, log. rewrite F, L. eexists.
    split; [reflexivity|]. simpl. repeat split.
    unfold pushes. rewrite flat_map_app. reflexivity. }
  split.
  { intros r ok F L. rewrite (finally_step s r ok F L). eexists.
    split; [reflexivity|]. simpl. repeat split.
    unfold pushes. rewrite flat_map_app. reflexivity. }
  intros N C T. destruct (fetcher_completes wm files N s R C T) as (sc & s' & Hr' & X).
  exists sc, s'. repeat split; auto.
  rewrite (pushes_shape wm files s'); [now rewrite X|].
  now apply (reachable_run wm files s sc).
Qed.

Lemma one_marker_always_last_witness :
  exists s,
    run (fetch_one ++ [FetcherStep true; FetcherStep false; FetcherStep true])
      (start None ["2020.csv.gz"; "2021.csv.gz"]) = Some s
    /\ pushes (trace s) = [File "2020.csv.gz"; EndOfFiles].
Proof.
  run_to Hr (fetch_one ++ [FetcherStep true; FetcherStep false; FetcherStep true])
         (start None ["2020.csv.gz"; "2021.csv.gz"]).
  destruct (one_marker_always_last None _ _ _ Hr) as [E _].
  eexists. split; [exact Hr|]. rewrite E. reflexivity.
Defined.

(** C3 as stated fails: the loop polls an empty queue and times out; the
    two files are then put and the list is exhausted; SIGINT arrives and
    the loop, testing the flag only now, is left with the queue full.
    [download_files] stays blocked in [put(None)] whatever is scheduled:
    no marker is ever pushed. *)
Lemma marker_never_pushed :
  exists s,
    run loop_left_early (start None ["2020.csv.gz"; "2021.csv.gz"]) = Some s
    /\ main s = MDone ByCancel
    /\ forall sched s',
        run sched s = Some s' ->
        fetcher s' = FFinally false
        /\ pushes (trace s') = [File "2020.csv.gz"; File "2021.csv.gz"].
Proof.
  run_to Hr loop_left_early (start None ["2020.csv.gz"; "2021.csv.gz"]).
  eexists. split; [exact Hr|]. split; [reflexivity|].
  induction sched as [|a sched IH]; intros s' H.
  - inversion H; subst. split; reflexivity.
  - destruct a; cbn [run] in H.
    + apply IH. exact H.
    + discriminate H.
    + discriminate H.
Qed.








(** C6, as the code has it.  The list handed to [download_files] is sorted
    ascending by file name in both tools; transfers are attempted in the
    order of that list, files are pushed in that order, and the files
    handed to the insert, the file being processed and the files waiting
    in the queue are, in this order, the files pushed: the queue is
    first-in first-out and one file is loaded at a time. *)
Theorem order_of_names_kept :
  (forall s listing since,
      StronglySorted name_le (Storm.files (Storm.prepare s listing since)))
  /\ (forall s listing since t s' files,
         Ncei.prepare s listing since = Ncei.Started t s' files ->
         StronglySorted name_le files)
  /\ (forall wm files sched st,
         run sched (start wm files) = Some st ->
         (exists tl, files = fetched (trace st) ++ tl)
         /\ (exists tl, files = pushed_files (trace st) ++ tl)
         /\ pushed_files (trace st)
            = loads (trace st) ++ current (main st) ++ queue_files (queue st)).
Proof.
  split; [exact storm_files_sorted|]. split; [exact ncei_files_sorted|].
  intros wm files sched st Hr.
  assert (reachable wm files st) as R by (now exists sched).
  destruct (fetched_prefix wm files st R) as (t1 & E1 & _).
  destruct (pushed_prefix wm files st R) as (t2 & E2 & _).
  repeat split; eauto. now apply (fifo wm files).
Qed.

Lemma order_of_names_kept_witness :
  exists st,
    run (fetch_one ++ [MainStep true] ++ fetch_one ++ [MainStep true])
      (start None ["2020.csv.gz"; "2021.csv.gz"]) = Some st
    /\ pushed_files (trace st)
       = loads (trace st) ++ current (main st) ++ queue_files (queue st)
    /\ loads (trace st) = ["2020.csv.gz"]
    /\ queue_files (queue st) = ["2021.csv.gz"].
Proof.
  run_to Hr (fetch_one ++ [MainStep true] ++ fetch_one ++ [MainStep true])
         (start None ["2020.csv.gz"; "2021.csv.gz"]).
  destruct (proj2 (proj2 order_of_names_kept) None _ _ _ Hr) as (_ & _ & F).
  eexists. split; [exact Hr|]. split; [exact F|]. split; reflexivity.
Defined.

(** C6 as stated fails: the list is sorted by name, and name order need
    not be period order. *)
Lemma sorted_by_name_not_by_period :
  map Storm.extract_year_from_filename
    (Storm.files
       (Storm.prepare None
          ["StormEvents_details-ftp_v1.1_d2019_c20200101.csv.gz";
           "StormEvents_details-ftp_v1.0_d2020_c20210101.csv.gz"] None))
  = [Some 2020; Some 2019].
Proof. vm_compute. reflexivity. Qed.

(** C7, as the code has it.  The queue never holds more than two items;
    local storage never holds more than four files (the one being loaded,
    two in the queue, and the one [download_files] has just staged); and
    with a file in hand and the queue full, [download_files] cannot move,
    so it stages nothing further until the loop takes an item. *)
Theorem backpressure_bound :
  forall wm files sched s,
    run sched (start wm files) = Some s ->
    (List.length (queue s) <= 2)%nat
    /\ (List.length (staging s) <= 4)%nat
    /\ (forall f rest ok,
           fetcher s = FPut f rest -> List.length (queue s) = 2%nat ->
           step (FetcherStep ok) s = None).
Proof.
  intros wm files sched s Hr.
  assert (reachable wm files s) as R by (now exists sched).
  pose proof (queue_bounded wm files s R) as Q. unfold maxsize in Q.
  destruct (staging_bounded wm files s R) as [B _].
  pose proof (queue_files_length (queue s)) as L.
  repeat split.
  - exact Q.
  - assert (holds_main (main s) <= 1)%nat by (destruct (main s) as [| | | []|]; simpl; lia).
    assert (holds_fetcher (fetcher s) <= 1)%nat
      by (destruct (fetcher s) as [| | | |[]|[]]; simpl; lia).
    lia.
  - intros f rest ok F E. simpl. unfold fetcher_step. rewrite F, E. reflexivity.
Qed.

Lemma backpressure_bound_witness :
  exists s,
    run slow_loader (start None four_files) = Some s
    /\ (List.length (queue s) <= 2)%nat /\ (List.length (staging s) <= 4)%nat
    /\ step (FetcherStep true) s = None.
Proof.
  run_to Hr slow_loader (start None four_files).
  destruct (backpressure_bound None _ _ _ Hr) as (Q & S & B).
  eexists. split; [exact Hr|]. split; [exact Q|]. split; [exact S|].
  apply (B "2022.csv.gz" []); reflexivity.
Defined.

(** C7 as stated fails: while the loop processes one file, two staged
    files wait in the queue and a fourth is already staged. *)
Lemma two_queued_and_one_more_staged :
  option_map (fun s => (main s, queue s, fetcher s, staging s))
    (run slow_loader (start None four_files))
  = Some (LProcess "2019.csv.gz",
          [File "2020.csv.gz"; File "2021.csv.gz"],
          FPut "2022.csv.gz" [],
          four_files).
Proof. vm_compute. reflexivity. Qed.

(** Left to itself the loop hands every file in the queue to the insert,
    flag or no flag. *)
Lemma loop_loads_queue wm files (N : NoDup files) :
  forall fs s,
    reachable wm files s -> main s = LGet -> queue_files (queue s) = fs ->
    exists s',
      run (drain (queue s)) s = Some s'
      /\ loads (trace s') = loads (trace s) ++ fs
      /\ main s' = LGet /\ queue_files (queue s') = []
      /\ fetcher s' = fetcher s /\ stop s' = stop s.
Proof.
  induction fs as [|f fs IH]; intros s R M Q; unfold drain; rewrite Q.
  - exists s. simpl. rewrite app_nil_r. repeat split; auto.
  - destruct (queue_shape wm files s R) as [Sh _]. rewrite Q in Sh.
    destruct (queue s) as [|i q] eqn:Eq; [discriminate|].
    simpl in Sh. inversion Sh; subst i. clear Sh.
    simpl in Q. inversion Q as [Q']. clear Q.
    assert (step (MainStep true) s
            = Some (mk_state (stop s) q (fetcher s) (LProcess f) (staging s) (trace s)))
      as S1 by (simpl; unfold main_step; now rewrite M, Eq).
    assert (reachable wm files
              (mk_state (stop s) q (fetcher s) (LProcess f) (staging s) (trace s)))
      as R1.
    { apply (reachable_run wm files s [MainStep true]); [exact R|].
      cbn [run]. now rewrite S1. }
    assert (present f (staging s) = true) as P.
    { apply present_In. apply (in_flight_staged wm files N _ R1); [reflexivity|].
      now left. }
    assert (step (MainStep true)
              (mk_state (stop s) q (fetcher s) (LProcess f) (staging s) (trace s))
            = Some (mk_state (stop s) q (fetcher s) LGet (delete f (staging s))
                      (trace s ++ [Inserted f; Removed f; TaskDone f])))
      as S2 by (simpl; unfold main_step, log; simpl; now rewrite P).
    assert (reachable wm files
              (mk_state (stop s) q (fetcher s) LGet (delete f (staging s))
                 (trace s ++ [Inserted f; Removed f; TaskDone f]))) as R2.
    { apply (reachable_run wm files _ [MainStep true] _ R1).
      cbn [run]. now rewrite S2. }
    destruct (IH _ R2 eq_refl Q') as (s' & Hr & L & M' & Q'' & F' & S').
    exists s'. cbn [flat_map app run]. rewrite S1, S2.
    unfold drain in Hr. simpl in Hr.
    split; [exact Hr|]. rewrite Q'. simpl in *. rewrite L. unfold loads.
    rewrite flat_map_app. simpl. rewrite <- app_assoc. repeat split; auto.
Qed.

(** C9, as the code has it.  At [file_queue.get] a file at the head of the
    queue is taken whatever the flag says, and the iteration hands it to
    the insert; left to itself the loop loads every file in the queue,
    flag or no flag.  The loop is left on the marker, or from a poll that
    timed out when the flag is then found set.  A poll times out on an
    empty queue only, when everything pushed so far has been handed to
    the insert; between the time-out and the test of the flag the queue is
    not looked at, so at the cancellation exit the files pushed and not
    handed to the insert are those put in between: they are still in the
    queue and stay there. *)
Theorem cancellation_drains_queue :
  forall wm files sched s,
    run sched (start wm files) = Some s ->
    (forall f q ok, main s = LGet -> queue s = File f :: q ->
       exists s', step (MainStep ok) s = Some s'
                  /\ main s' = LProcess f /\ queue s' = q
                  /\ staging s' = staging s /\ trace s' = trace s)
    /\ (forall f ok, main s = LProcess f ->
          exists s', step (MainStep ok) s = Some s'
                     /\ loads (trace s') = loads (trace s) ++ [f]
                     /\ queue s' = queue s)
    /\ (NoDup files -> main s = LGet ->
        exists s', run (drain (queue s)) s = Some s'
                   /\ loads (trace s') = loads (trace s) ++ queue_files (queue s)
                   /\ main s' = LGet)
    /\ (forall a s' r,
          step a s = Some s' -> exit_of (main s) = None ->
          exit_of (main s') = Some r ->
          (r = ByMarker /\ main s = LGet /\ exists q, queue s = EndOfFiles :: q)
          \/ (r = ByCancel /\ main s = LEmpty /\ stop s = true)
          \/ (r = ByError /\ exists f, main s = LProcess f /\ ~ In f (staging s)))
    /\ (forall a s',
          step a s = Some s' -> main s <> LEmpty -> main s' = LEmpty ->
          main s = LGet /\ queue s = []
          /\ pushed_files (trace s') = loads (trace s'))
    /\ (forall ok, main s = LEmpty ->
          exists s', step (MainStep ok) s = Some s'
                     /\ main s' = (if stop s then LExit ByCancel else LGet)
                     /\ queue s' = queue s /\ trace s' = trace s)
    /\ (main s = LEmpty \/ exit_of (main s) = Some ByCancel ->
        pushed_files (trace s) = loads (trace s) ++ queue_files (queue s)).
Proof.
  intros wm files sched s Hr.
  assert (reachable wm files s) as R by (now exists sched).
  pose proof (fifo wm files s R) as F.
  split.
  { intros f q ok M Q. simpl. unfold main_step. rewrite M, Q.
    eexists. split; [reflexivity|]. simpl. auto. }
  split.
  { intros f ok M. simpl. unfold main_step, log. rewrite M.
    destruct (present f (staging s)); eexists; (split; [reflexivity|]); simpl;
      unfold loads; rewrite flat_map_app; destruct ok; simpl; auto. }
  split.
  { intros N M.
    destruct (loop_loads_queue wm files N _ s R M eq_refl)
      as (s' & H & L & M' & _). eauto. }
  split.
  { intros a s' r H. revert F.
    step_cases H; intros F X Y; try discriminate; try congruence;
      inversion Y; subst;
      first [ left; solve [eauto]
            | right; left; solve [auto]
            | right; right; split; [reflexivity|]; eexists;
              split; [reflexivity|]; apply (proj1 (present_false _ _));
              assumption ]. }
  split.
  { intros a s' H. revert F.
    step_cases H; intros F X Y; try discriminate; try congruence.
    repeat split. simpl in F. now rewrite app_nil_r in F. }
  split.
  { intros ok M. simpl. unfold main_step. rewrite M.
    destruct (stop s); eexists; (split; [reflexivity|]); simpl; auto. }
  intros [M|M].
  - now rewrite M in F.
  - destruct (main s) as [| |g|r|r]; try discriminate; exact F.
Qed.

Lemma cancellation_drains_queue_witness :
  exists s s',
    run (fetch_one ++ fetch_one ++ [Signal])
      (start None ["2020.csv.gz"; "2021.csv.gz"]) = Some s
    /\ stop s = true
    /\ run (drain (queue s)) s = Some s'
    /\ loads (trace s') = ["2020.csv.gz"; "2021.csv.gz"].
Proof.
  run_to Hr (fetch_one ++ fetch_one ++ [Signal])
         (start None ["2020.csv.gz"; "2021.csv.gz"]).
  assert (NoDup ["2020.csv.gz"; "2021.csv.gz"]) as N.
  { repeat constructor; simpl; intuition discriminate. }
  destruct (cancellation_drains_queue None _ _ _ Hr) as (_ & _ & G & _).
  destruct (G N eq_refl) as (s' & H & L & _).
  eexists. exists s'. split; [exact Hr|]. split; [reflexivity|].
  split; [exact H|exact L].
Defined.

(** C9 as stated fails: the poll times out while [download_files] is about
    to put its file; the file is put, SIGINT arrives, and the loop, testing
    the flag only now, is left with the file in the queue.  The file is
    never handed to the insert; it goes with the temporary directory. *)
Lemma enqueued_file_discarded_on_cancel :
  option_map (fun s => (main s, queue s, pushed_files (trace s), loads (trace s)))
    (run late_put (start None ["2020.csv.gz"]))
  = Some (LExit ByCancel, [File "2020.csv.gz"], ["2020.csv.gz"], [])
  /\ option_map (fun s => (main s, fetcher s, loads (trace s), removals (trace s)))
       (run (late_put ++ [MainStep true; FetcherStep true; FetcherStep true])
          (start None ["2020.csv.gz"]))
     = Some (MDone ByCancel, FExit false, [], ["2020.csv.gz"]).
Proof. split; vm_compute; reflexivity. Qed.

Example storm_extract_doc :
  Storm.extract_year_from_filename
    "StormEvents_details-ftp_v1.0_d2025_c20250520.csv.gz" = Some 2025.
Proof. reflexivity. Qed.

Example ncei_int_ok : Py.int (Py.slice4 "2021.csv.gz") = Some 2021.
Proof. reflexivity. Qed.

Example ncei_int_raises : Py.int (Py.slice4 "readme.csv.gz") = None.
Proof. reflexivity. Qed.

Example sort_example :
  Py.sort ["2021.csv.gz"; "1999.csv.gz"; "2020.csv.gz"]
  = ["1999.csv.gz"; "2020.csv.gz"; "2021.csv.gz"].
Proof. reflexivity. Qed.

Example pipeline_two_files :
  option_map
    (fun s => (Pipeline.loads (Pipeline.trace s), Pipeline.staging s, Pipeline.main s))
    (Pipeline.run
       (fetch_one
        ++ [Pipeline.MainStep true; Pipeline.MainStep false]
        ++ fetch_one
        ++ [Pipeline.FetcherStep true; Pipeline.FetcherStep true;
            Pipeline.MainStep true; Pipeline.MainStep true; Pipeline.MainStep true;
            Pipeline.MainStep true])
       (Pipeline.init [] ["a"; "b"]))
  = Some (["a"; "b"], [], Pipeline.MDone Pipeline.ByMarker).
Proof. reflexivity. Qed.

(** * Further properties of the two tools *)

(** ** The watermark *)

Lemma storm_sql_max_spec l :
  match Storm.sql_max l with
  | Some m => In (Some m) l /\ forall v, In (Some v) l -> v <= m
  | None => forall v, ~ In (Some v) l
  end.
Proof.
  induction l as [|[v|] l IH]; simpl.
  - tauto.
  - destruct (Storm.sql_max l) as [m|].
    + destruct IH as [Hin Hmax]. split.
      * destruct (Z.max_spec v m) as [[_ ->]|[_ ->]]; auto.
      * intros w [E|Hw]; [inversion E; lia|]. specialize (Hmax w Hw). lia.
    + split; [now left|]. intros w [E|Hw]; [inversion E; lia|].
      now apply IH in Hw.
  - destruct (Storm.sql_max l) as [m|].
    + destruct IH as [Hin Hmax]. split; [now right|].
      intros w [E|Hw]; [discriminate|auto].
    + intros w [E|Hw]; [discriminate|]. now apply IH in Hw.
Qed.

(** X1.  Storm events: [max_date] is the [BEGIN_YEARMONTH] of some row and
    no row has a larger one; it is absent exactly when the table is missing
    or every row has a NULL there. *)
Theorem storm_watermark_is_maximum :
  forall s,
    match Storm.max_date s with
    | Some m =>
        exists rows,
          s = Some rows
          /\ (exists r, In r rows /\ Storm.BEGIN_YEARMONTH r = Some m)
          /\ (forall r v, In r rows -> Storm.BEGIN_YEARMONTH r = Some v -> v <= m)
    | None =>
        forall rows r, s = Some rows -> In r rows -> Storm.BEGIN_YEARMONTH r = None
    end.
Proof.
  intros [rows|]; simpl; [|discriminate].
  pose proof (storm_sql_max_spec (map Storm.BEGIN_YEARMONTH rows)) as H.
  destruct (Storm.sql_max (map Storm.BEGIN_YEARMONTH rows)) as [m|].
  - destruct H as [Hin Hmax]. exists rows. split; [reflexivity|]. split.
    + apply in_map_iff in Hin as (r & E & Hr). eauto.
    + intros r v Hr E. apply Hmax. rewrite <- E. now apply in_map.
  - intros rows' r E Hr. inversion E; subst.
    destruct (Storm.BEGIN_YEARMONTH r) as [v|] eqn:B; [|reflexivity].
    exfalso. apply (H v). rewrite <- B. now apply in_map.
Qed.

Lemma date_leb_refl d : Ncei.date_leb d d = true.
Proof.
  unfold Ncei.date_leb. rewrite !Z.eqb_refl, Z.leb_refl. simpl.
  now rewrite !orb_true_r.
Qed.

Lemma date_leb_total a b : Ncei.date_leb a b = false -> Ncei.date_leb b a = true.
Proof.
  unfold Ncei.date_leb.
  destruct (Z.ltb_spec (Ncei.year a) (Ncei.year b));
    destruct (Z.ltb_spec (Ncei.year b) (Ncei.year a));
    destruct (Z.eqb_spec (Ncei.year a) (Ncei.year b));
    destruct (Z.eqb_spec (Ncei.year b) (Ncei.year a));
    destruct (Z.ltb_spec (Ncei.month a) (Ncei.month b));
    destruct (Z.ltb_spec (Ncei.month b) (Ncei.month a));
    destruct (Z.eqb_spec (Ncei.month a) (Ncei.month b));
    destruct (Z.eqb_spec (Ncei.month b) (Ncei.month a));
    destruct (Z.leb_spec (Ncei.day a) (Ncei.day b));
    destruct (Z.leb_spec (Ncei.day b) (Ncei.day a));
    simpl; intros; try reflexivity; try discriminate; lia.
Qed.

Lemma date_leb_trans a b c :
  Ncei.date_leb a b = true -> Ncei.date_leb b c = true -> Ncei.date_leb a c = true.
Proof.
  unfold Ncei.date_leb.
  rewrite !orb_true_iff, !andb_true_iff, !orb_true_iff, !andb_true_iff,
    !Z.ltb_lt, !Z.eqb_eq, !Z.leb_le.
  lia.
Qed.

Lemma date_leb_year a b : Ncei.date_leb a b = true -> Ncei.year a <= Ncei.year b.
Proof.
  unfold Ncei.date_leb.
  rewrite !orb_true_iff, !andb_true_iff, !Z.ltb_lt, !Z.eqb_eq. lia.
Qed.

Lemma ncei_sql_max_spec l :
  match Ncei.sql_max l with
  | Some m => In (Some m) l /\ forall v, In (Some v) l -> Ncei.date_leb v m = true
  | None => forall v, ~ In (Some v) l
  end.
Proof.
  induction l as [|[v|] l IH]; simpl.
  - tauto.
  - destruct (Ncei.sql_max l) as [m|].
    + destruct IH as [Hin Hmax]. destruct (Ncei.date_leb v m) eqn:E; split; auto.
      * intros w [X|Hw]; [inversion X; subst; exact E|auto].
      * intros w [X|Hw]; [inversion X; subst; apply date_leb_refl|].
        apply date_leb_trans with m; [auto|now apply date_leb_total].
    + split; [now left|]. intros w [X|Hw]; [inversion X; apply date_leb_refl|].
      now apply IH in Hw.
  - destruct (Ncei.sql_max l) as [m|].
    + destruct IH as [Hin Hmax]. split; [now right|].
      intros w [X|Hw]; [discriminate|auto].
    + intros w [X|Hw]; [discriminate|]. now apply IH in Hw.
Qed.

(** X2.  NCEI, the table holding dates that Python represents as
    [datetime.date]: [max_date] is the date of some row, no row has a later
    date, and [max_date.year] is the largest year in the table, between 1
    and 9999; [max_date] is absent exactly when the table is missing or
    holds no dated row. *)
Theorem ncei_watermark_is_maximum :
  forall s,
    match Ncei.max_date s with
    | Some m =>
        Ncei.max_year s = Some (Ncei.year m)
        /\ 1 <= Ncei.year m <= 9999
        /\ exists rows,
            s = Some rows
            /\ (exists r, In r rows /\ Ncei.row_date r = Some m)
            /\ (forall r d, In r rows -> Ncei.row_date r = Some d ->
                            Ncei.date_leb d m = true
                            /\ Ncei.year d <= Ncei.year m)
    | None =>
        Ncei.max_year s = None
        /\ forall rows r, s = Some rows -> In r rows -> Ncei.row_date r = None
    end.
Proof.
  intros s. unfold Ncei.max_year. destruct s as [rows|]; simpl;
    [|split; [reflexivity|discriminate]].
  pose proof (ncei_sql_max_spec (map Ncei.row_date rows)) as H.
  destruct (Ncei.sql_max (map Ncei.row_date rows)) as [m|]; simpl.
  - destruct H as [Hin Hmax]. split; [reflexivity|].
    split; [pose proof (Ncei.year_ok m) as Y;
            apply andb_true_iff in Y as [Y1 Y2]; lia|].
    exists rows. split; [reflexivity|]. split.
    + apply in_map_iff in Hin as (r & E & Hr). eauto.
    + intros r d Hr E.
      assert (Ncei.date_leb d m = true) as L
          by (apply Hmax; rewrite <- E; now apply in_map).
      split; [exact L|now apply date_leb_year].
  - split; [reflexivity|]. intros rows' r E Hr. inversion E; subst.
    destruct (Ncei.row_date r) as [d|] eqn:B; [|reflexivity].
    exfalso. apply (H d). rewrite <- B. now apply in_map.
Qed.

Lemma ncei_max_year_some s y :
  Ncei.max_year s = Some y ->
  exists rows,
    s = Some rows
    /\ (exists r d, In r rows /\ Ncei.row_date r = Some d /\ Ncei.year d = y)
    /\ (forall r d, In r rows -> Ncei.row_date r = Some d -> Ncei.year d <= y).
Proof.
  unfold Ncei.max_year. destruct s as [rows|]; simpl; [|discriminate].
  pose proof (ncei_sql_max_spec (map Ncei.row_date rows)) as H.
  destruct (Ncei.sql_max (map Ncei.row_date rows)) as [m|]; simpl; [|discriminate].
  intros E. inversion E; subst. destruct H as [Hin Hmax].
  exists rows. split; [reflexivity|]. split.
  - apply in_map_iff in Hin as (r & D & Hr). eauto.
  - intros r d Hr D. apply date_leb_year, Hmax. rewrite <- D. now apply in_map.
Qed.

(** X3.  NCEI: once the watermark year is truncated, every dated row that
    is left is of a strictly earlier year, so the table's watermark year
    has gone down or the table holds no dated row. *)
Theorem ncei_truncation_lowers_watermark :
  forall s y,
    Ncei.max_year s = Some y ->
    (forall rows r d,
        Ncei.truncate y s = Some rows -> In r rows ->
        Ncei.row_date r = Some d -> Ncei.year d < y)
    /\ match Ncei.max_year (Ncei.truncate y s) with
       | Some y' => y' < y
       | None => True
       end.
Proof.
  intros s y Y.
  assert (forall rows r d,
             Ncei.truncate y s = Some rows -> In r rows ->
             Ncei.row_date r = Some d -> Ncei.year d < y) as A.
  { intros rows r d T Hr D.
    destruct (ncei_max_year_some s y Y) as (rows0 & -> & _ & Hmax).
    rewrite ncei_truncate_filter in T. inversion T; subst.
    apply filter_In in Hr as [Hr Hn].
    pose proof (Hmax r d Hr D) as L.
    unfold Ncei.year_is in Hn. rewrite D in Hn.
    apply negb_true_iff, Z.eqb_neq in Hn. lia. }
  split; [exact A|].
  destruct (Ncei.max_year (Ncei.truncate y s)) as [y'|] eqn:Y'; [|exact I].
  destruct (ncei_max_year_some _ _ Y') as (rows & E & (r & d & Hr & D & <-) & _).
  eauto.
Qed.

Lemma ncei_truncation_lowers_watermark_witness :
  Ncei.max_year ncei_sink_2024 = Some 2024
  /\ match Ncei.max_year (Ncei.truncate 2024 ncei_sink_2024) with
     | Some y' => y' < 2024
     | None => True
     end.
Proof.
  split; [reflexivity|].
  exact (proj2 (ncei_truncation_lowers_watermark ncei_sink_2024 2024 eq_refl)).
Defined.

(** X4.  Storm events: when every row's [YEAR] is the year part of its
    [BEGIN_YEARMONTH], truncating the watermark year leaves only rows whose
    [BEGIN_YEARMONTH] falls in a strictly earlier year. *)
Theorem storm_truncation_lowers_watermark :
  forall rows y,
    (forall r v, In r rows -> Storm.BEGIN_YEARMONTH r = Some v ->
                 Storm.YEAR r = Some (v / 100)) ->
    Storm.max_year (Some rows) = Some y ->
    forall rows' r v,
      Storm.truncate y (Some rows) = Some rows' -> In r rows' ->
      Storm.BEGIN_YEARMONTH r = Some v -> v / 100 < y.
Proof.
  intros rows y C Y rows' r v T Hr B.
  unfold Storm.max_year, Storm.max_date in Y.
  pose proof (storm_sql_max_spec (map Storm.BEGIN_YEARMONTH rows)) as M.
  destruct (Storm.sql_max (map Storm.BEGIN_YEARMONTH rows)) as [m|]; [|discriminate].
  destruct (Py.truthy m && Py.truthy (m / 100)); [|discriminate].
  inversion Y; subst. destruct M as [_ Hmax].
  rewrite storm_truncate_filter in T. inversion T; subst.
  apply filter_In in Hr as [Hr Hn].
  assert (v <= m) as L by (apply Hmax; rewrite <- B; now apply in_map).
  assert (v / 100 <= m / 100) as L' by (apply Z.div_le_mono; lia).
  unfold Storm.year_is in Hn. rewrite (C r v Hr B) in Hn.
  apply negb_true_iff, Z.eqb_neq in Hn. lia.
Qed.

Lemma storm_truncation_lowers_watermark_witness :
  Storm.max_year sink_2024 = Some 2024
  /\ Storm.truncate 2024 sink_2024 = Some [Storm.mk_row (Some 202311) (Some 2023)]
  /\ 202311 / 100 < 2024.
Proof.
  split; [reflexivity|]. split; [reflexivity|].
  apply (storm_truncation_lowers_watermark
           [Storm.mk_row (Some 202311) (Some 2023);
            Storm.mk_row (Some 202402) (Some 2024);
            Storm.mk_row (Some 202403) (Some 2024)] 2024)
    with (rows' := [Storm.mk_row (Some 202311) (Some 2023)])
         (r := Storm.mk_row (Some 202311) (Some 2023)).
  - intros r v [<-|[<-|[<-|[]]]] E; inversion E; reflexivity.
  - reflexivity.
  - reflexivity.
  - now left.
  - reflexivity.
Defined.

(** ** Reading the period off a name *)

Lemma digit_val_range c : Py.is_digit c = true -> 0 <= Py.digit_val c <= 9.
Proof.
  unfold Py.is_digit, Py.digit_val. rewrite andb_true_iff, !Nat.leb_le. lia.
Qed.

Lemma year_value_range a b c d :
  Py.is_digit a = true -> Py.is_digit b = true ->
  Py.is_digit c = true -> Py.is_digit d = true ->
  0 <= year_value a b c d <= 9999.
Proof.
  intros A B C D. unfold year_value.
  pose proof (digit_val_range a A). pose proof (digit_val_range b B).
  pose proof (digit_val_range c C). pose proof (digit_val_range d D). lia.
Qed.

Lemma match_year_here_some s y :
  Storm.match_year_here s = Some y ->
  exists a b c d rest,
    s = year_tag a b c d rest
    /\ Py.is_digit a = true /\ Py.is_digit b = true
    /\ Py.is_digit c = true /\ Py.is_digit d = true
    /\ y = year_value a b c d.
Proof.
  unfold Storm.match_year_here, year_tag, year_value.
  destruct s as [|c0 [|c1 [|a [|b [|c [|d [|c6 rest]]]]]]]; try discriminate;
    try (destruct c0 as [[] [] [] [] [] [] [] []]; discriminate);
    try (destruct c0 as [[] [] [] [] [] [] [] []]; try discriminate;
         destruct c1 as [[] [] [] [] [] [] [] []]; discriminate).
  destruct c0 as [[] [] [] [] [] [] [] []]; try discriminate.
  destruct c1 as [[] [] [] [] [] [] [] []]; try discriminate.
  destruct c6 as [[] [] [] [] [] [] [] []]; try discriminate.
  destruct (Py.is_digit a) eqn:A; [|discriminate].
  destruct (Py.is_digit b) eqn:B; [|discriminate].
  destruct (Py.is_digit c) eqn:C; [|discriminate].
  destruct (Py.is_digit d) eqn:D; [|discriminate].
  simpl. intros E. inversion E. exists a, b, c, d, rest. auto 10.
Qed.

Lemma match_year_here_tag a b c d rest :
  Py.is_digit a = true -> Py.is_digit b = true ->
  Py.is_digit c = true -> Py.is_digit d = true ->
  Storm.match_year_here (year_tag a b c d rest) = Some (year_value a b c d).
Proof.
  intros A B C D. unfold year_tag, Storm.match_year_here.
  now rewrite A, B, C, D.
Qed.

Lemma extract_year_unfold c0 f :
  Storm.extract_year_from_filename (String c0 f)
  = match Storm.match_year_here (String c0 f) with
    | Some y => Some y
    | None => Storm.extract_year_from_filename f
    end.
Proof. reflexivity. Qed.

Lemma extract_year_some f y :
  Storm.extract_year_from_filename f = Some y ->
  exists pre a b c d rest,
    f = String.append pre (year_tag a b c d rest)
    /\ Py.is_digit a = true /\ Py.is_digit b = true
    /\ Py.is_digit c = true /\ Py.is_digit d = true
    /\ y = year_value a b c d.
Proof.
  induction f as [|c0 f IH].
  - discriminate.
  - rewrite extract_year_unfold.
    destruct (Storm.match_year_here (String c0 f)) as [y'|] eqn:M.
    + intros E. inversion E; subst.
      destruct (match_year_here_some _ _ M) as (a & b & c & d & rest & H).
      exists EmptyString, a, b, c, d, rest. exact H.
    + intros E. destruct (IH E) as (pre & a & b & c & d & rest & -> & H).
      exists (String c0 pre), a, b, c, d, rest. split; [reflexivity|exact H].
Qed.

Lemma extract_year_append pre s :
  Storm.extract_year_from_filename s <> None ->
  Storm.extract_year_from_filename (String.append pre s) <> None.
Proof.
  induction pre as [|c0 pre IH]; [tauto|].
  intros H. change (String.append (String c0 pre) s)
    with (String c0 (String.append pre s)).
  rewrite extract_year_unfold.
  destruct (Storm.match_year_here (String c0 (String.append pre s)));
    [discriminate|auto].
Qed.

Lemma extract_year_tag a b c d rest :
  Py.is_digit a = true -> Py.is_digit b = true ->
  Py.is_digit c = true -> Py.is_digit d = true ->
  Storm.extract_year_from_filename (year_tag a b c d rest)
  = Some (year_value a b c d).
Proof.
  intros A B C D. unfold year_tag at 1. rewrite extract_year_unfold.
  fold (year_tag a b c d rest). now rewrite match_year_here_tag.
Qed.

Lemma extract_year_leftmost f y :
  Storm.extract_year_from_filename f = Some y ->
  exists pre a b c d rest,
    f = String.append pre (year_tag a b c d rest)
    /\ Py.is_digit a = true /\ Py.is_digit b = true
    /\ Py.is_digit c = true /\ Py.is_digit d = true
    /\ y = year_value a b c d
    /\ forall pre' a' b' c' d' rest',
        Py.is_digit a' = true -> Py.is_digit b' = true ->
        Py.is_digit c' = true -> Py.is_digit d' = true ->
        f = String.append pre' (year_tag a' b' c' d' rest') ->
        (String.length pre <= String.length pre')%nat.
Proof.
  induction f as [|c0 f IH].
  - discriminate.
  - rewrite extract_year_unfold.
    destruct (Storm.match_year_here (String c0 f)) as [y'|] eqn:M.
    + intros E. inversion E; subst.
      destruct (match_year_here_some _ _ M)
        as (a & b & c & d & rest & H & A & B & C & D & Y).
      exists EmptyString, a, b, c, d, rest. repeat (split; [assumption|]).
      intros. simpl. lia.
    + intros E.
      destruct (IH E) as (pre & a & b & c & d & rest & -> & A & B & C & D & Y & L).
      exists (String c0 pre), a, b, c, d, rest. split; [reflexivity|].
      repeat (split; [assumption|]).
      intros pre' a' b' c' d' rest' A' B' C' D' F.
      destruct pre' as [|c1 pre'].
      * simpl in F. rewrite F, (match_year_here_tag a' b' c' d' rest') in M;
          auto. discriminate.
      * simpl in F. inversion F as [[F0 F1]]. simpl.
        apply le_n_S. now apply (L pre' a' b' c' d' rest').
Qed.

(** X5.  [extract_year_from_filename] returns a year only for a name that
    contains [_d], four digits and [_]; the year is the number spelt by the
    digits of the leftmost such part, between 0 and 9999; and it returns
    [None] exactly for the names that contain no such part. *)
Theorem extract_year_matches_tag :
  forall f,
    (forall y, Storm.extract_year_from_filename f = Some y ->
               0 <= y <= 9999
               /\ exists pre a b c d rest,
                   f = String.append pre (year_tag a b c d rest)
                   /\ Py.is_digit a = true /\ Py.is_digit b = true
                   /\ Py.is_digit c = true /\ Py.is_digit d = true
                   /\ y = year_value a b c d
                   /\ forall pre' a' b' c' d' rest',
                       Py.is_digit a' = true -> Py.is_digit b' = true ->
                       Py.is_digit c' = true -> Py.is_digit d' = true ->
                       f = String.append pre' (year_tag a' b' c' d' rest') ->
                       (String.length pre <= String.length pre')%nat)
    /\ (Storm.extract_year_from_filename f = None <->
        forall pre a b c d rest,
          Py.is_digit a = true -> Py.is_digit b = true ->
          Py.is_digit c = true -> Py.is_digit d = true ->
          f <> String.append pre (year_tag a b c d rest)).
Proof.
  intros f. split.
  - intros y E.
    destruct (extract_year_leftmost f y E)
      as (pre & a & b & c & d & rest & F & A & B & C & D & Y & L).
    split; [rewrite Y; now apply year_value_range|].
    exists pre, a, b, c, d, rest. auto 10.
  - split.
    + intros N pre a b c d rest A B C D ->.
      apply (extract_year_append pre (year_tag a b c d rest)); [|exact N].
      now rewrite extract_year_tag.
    + intros H. destruct (Storm.extract_year_from_filename f) as [y|] eqn:E;
        [|reflexivity].
      destruct (extract_year_some f y E)
        as (pre & a & b & c & d & rest & -> & A & B & C & D & _).
      exfalso. now apply (H pre a b c d rest).
Qed.

Lemma digit_plain c :
  Py.is_digit c = true ->
  Py.is_space c = false /\ Ascii.eqb c "." = false
  /\ c <> "+"%char /\ c <> "-"%char.
Proof.
  destruct c as [[] [] [] [] [] [] [] []]; vm_compute; intros H;
    try discriminate H; repeat split; discriminate.
Qed.

Lemma int_four_digits a b c d :
  Py.is_digit a = true -> Py.is_digit b = true ->
  Py.is_digit c = true -> Py.is_digit d = true ->
  Py.int (String a (String b (String c (String d EmptyString))))
  = Some (year_value a b c d).
Proof.
  intros A B C D.
  destruct (digit_plain a A) as (Sa & _ & Pa & Ma).
  destruct (digit_plain d D) as (Sd & _).
  unfold Py.int, Py.strip. simpl list_ascii_of_string.
  cbn [Py.lstrip]. rewrite Sa. cbn [rev app Py.lstrip]. rewrite Sd.
  cbn [rev app].
  assert (Py.digits 0 false [a; b; c; d] = Some (year_value a b c d)) as E.
  { cbn [Py.digits]. rewrite A, B, C, D. unfold year_value. f_equal. lia. }
  destruct a as [[] [] [] [] [] [] [] []]; try exact E;
    exfalso; solve [now apply Pa | now apply Ma].
Qed.

Lemma is_year_name_shape f :
  is_year_name f = true ->
  exists a b c d rest,
    f = String a (String b (String c (String d (String "." rest))))
    /\ Py.is_digit a = true /\ Py.is_digit b = true
    /\ Py.is_digit c = true /\ Py.is_digit d = true.
Proof.
  unfold is_year_name.
  destruct f as [|a [|b [|c [|d [|e rest]]]]]; try discriminate.
  destruct e as [[] [] [] [] [] [] [] []]; try discriminate.
  rewrite !andb_true_iff. intros [[[A B] C] D].
  exists a, b, c, d, rest. auto.
Qed.

Lemma year_name_ints f :
  is_year_name f = true ->
  exists a b c d,
    Py.is_digit a = true /\ Py.is_digit b = true
    /\ Py.is_digit c = true /\ Py.is_digit d = true
    /\ Py.int (Py.slice4 f) = Some (year_value a b c d)
    /\ Py.int (Py.split_dot_0 f) = Some (year_value a b c d).
Proof.
  intros H.
  destruct (is_year_name_shape f H) as (a & b & c & d & rest & -> & A & B & C & D).
  exists a, b, c, d. repeat (split; [assumption|]).
  destruct (digit_plain a A) as (_ & Da & _).
  destruct (digit_plain b B) as (_ & Db & _).
  destruct (digit_plain c C) as (_ & Dc & _).
  destruct (digit_plain d D) as (_ & Dd & _).
  split.
  - change (Py.slice4 (String a (String b (String c (String d (String "." rest))))))
      with (String a (String b (String c (String d EmptyString)))).
    now apply int_four_digits.
  - cbn [Py.split_dot_0]. rewrite Da, Db, Dc, Dd.
    change (Ascii.eqb "." ".") with true. cbn iota.
    now apply int_four_digits.
Qed.

(** X6.  NCEI: a name made of four digits, a dot and anything is read
    alike by the two filters: [int(f[:4])] and [int(f.split(".")[0])] both
    give the number its four digits spell, between 0 and 9999, and neither
    raises. *)
Theorem year_name_read_alike :
  forall f,
    is_year_name f = true ->
    exists a b c d rest,
      f = String a (String b (String c (String d (String "." rest))))
      /\ Py.is_digit a = true /\ Py.is_digit b = true
      /\ Py.is_digit c = true /\ Py.is_digit d = true
      /\ Py.int (Py.slice4 f) = Some (year_value a b c d)
      /\ Py.int (Py.split_dot_0 f) = Some (year_value a b c d)
      /\ 0 <= year_value a b c d <= 9999.
Proof.
  intros f H.
  destruct (is_year_name_shape f H) as (a & b & c & d & rest & F & A & B & C & D).
  exists a, b, c, d, rest. split; [exact F|]. repeat (split; [assumption|]).
  destruct (digit_plain a A) as (_ & Da & _).
  destruct (digit_plain b B) as (_ & Db & _).
  destruct (digit_plain c C) as (_ & Dc & _).
  destruct (digit_plain d D) as (_ & Dd & _).
  subst f. split; [|split].
  - change (Py.slice4 (String a (String b (String c (String d (String "." rest))))))
      with (String a (String b (String c (String d EmptyString)))).
    now apply int_four_digits.
  - cbn [Py.split_dot_0]. rewrite Da, Db, Dc, Dd.
    change (Ascii.eqb "." ".") with true. cbn iota.
    now apply int_four_digits.
  - now apply year_value_range.
Qed.

Lemma year_name_read_alike_witness :
  Py.int (Py.slice4 "2021.csv.gz") = Some 2021
  /\ Py.int (Py.split_dot_0 "2021.csv.gz") = Some 2021.
Proof.
  destruct (year_name_read_alike "2021.csv.gz" eq_refl)
    as (a & b & c & d & rest & F & _ & _ & _ & _ & E1 & E2 & _).
  inversion F; subst. split; [exact E1|exact E2].
Defined.

Lemma filter_raising_total p l :
  (forall x, In x l -> p x <> None) -> exists r, Py.filter_raising p l = Some r.
Proof.
  intros H. destruct (Py.filter_raising p l) as [r|] eqn:E; [eauto|].
  apply filter_raising_none in E as (x & Hx & Px). now destruct (H x Hx).
Qed.

Lemma filter_raising_incl p l r x :
  Py.filter_raising p l = Some r -> In x r -> In x l.
Proof.
  intros H Hx. apply filter_raising_some in H as [-> _].
  now apply filter_In in Hx.
Qed.

Lemma ncei_filter_since_incl since l r x :
  Ncei.filter_since since l = Some r -> In x r -> In x l.
Proof.
  unfold Ncei.filter_since.
  destruct (Py.truthy_opt since); [destruct since|];
    try (intros E; inversion E; subst; tauto).
  apply filter_raising_incl.
Qed.

Lemma ncei_filters_never_raise listing since :
  (forall f, In f listing -> is_year_name f = true) ->
  exists l,
    Ncei.filter_since since (Py.sort listing) = Some l
    /\ forall y, exists l', Ncei.filter_watermark (Some y) l = Some l'.
Proof.
  intros W.
  assert (forall f, In f (Py.sort listing) -> is_year_name f = true) as W'
      by (intros f Hf; apply W; now apply sort_in).
  assert (exists l, Ncei.filter_since since (Py.sort listing) = Some l) as [l E1].
  { unfold Ncei.filter_since.
    destruct (Py.truthy_opt since); [destruct since as [b|]|]; eauto.
    apply filter_raising_total. intros x Hx.
    destruct (year_name_ints x (W' x Hx))
      as (d1 & d2 & d3 & d4 & _ & _ & _ & _ & -> & _).
    discriminate. }
  exists l. split; [exact E1|]. intros y.
  unfold Ncei.filter_watermark. apply filter_raising_total. intros x Hx.
  assert (In x (Py.sort listing)) as Hs by (eapply ncei_filter_since_incl; eauto).
  destruct (year_name_ints x (W' x Hs))
    as (d1 & d2 & d3 & d4 & _ & _ & _ & _ & _ & ->).
  discriminate.
Qed.

Lemma ncei_started s listing since l :
  Ncei.filter_since since (Py.sort listing) = Some l ->
  (forall y, exists l', Ncei.filter_watermark (Some y) l = Some l') ->
  exists files,
    Ncei.prepare s listing since
    = Ncei.Started (Ncei.max_year s)
        (match Ncei.max_year s with
         | Some y => Ncei.truncate y s
         | None => s
         end) files
    /\ Run.ncei s listing since = Some (start (Ncei.max_year s) files).
Proof.
  intros E1 T. unfold Run.ncei, Ncei.prepare. rewrite E1.
  destruct (Ncei.max_year s) as [y|]; [|eauto].
  destruct (T y) as [l' E2]. rewrite E2. eauto.
Qed.

(** X7.  NCEI: on a listing in which every name is four digits, a dot and
    anything, neither filter raises, whatever [since_year] and whatever the
    sink, its dates being [datetime.date] values: the coordinator always
    gets to start the two stages, having truncated the watermark year when
    there is one. *)
Theorem ncei_never_raises_on_year_names :
  forall s listing since,
    (forall f, In f listing -> is_year_name f = true) ->
    exists files,
      Ncei.prepare s listing since
      = Ncei.Started (Ncei.max_year s)
          (match Ncei.max_year s with
           | Some y => Ncei.truncate y s
           | None => s
           end) files
      /\ Run.ncei s listing since = Some (start (Ncei.max_year s) files).
Proof.
  intros s listing since W.
  destruct (ncei_filters_never_raise listing since W) as (l & E1 & T).
  now apply ncei_started with l.
Qed.

Lemma ncei_never_raises_on_year_names_witness :
  exists files,
    Ncei.prepare ncei_sink_2024 four_files (Some 2020)
    = Ncei.Started (Some 2024) (Ncei.truncate 2024 ncei_sink_2024) files
    /\ Run.ncei ncei_sink_2024 four_files (Some 2020)
       = Some (start (Some 2024) files).
Proof.
  apply (ncei_never_raises_on_year_names ncei_sink_2024 four_files (Some 2020)).
  intros f [<-|[<-|[<-|[<-|[]]]]]; reflexivity.
Defined.

(** ** The candidate list *)

Lemma insert_perm x l : Permutation (x :: l) (Py.insert x l).
Proof.
  induction l as [|a l IH]; simpl; [reflexivity|].
  destruct (String.leb x a); [reflexivity|].
  rewrite perm_swap. now constructor.
Qed.

Lemma sort_perm l : Permutation l (Py.sort l).
Proof.
  induction l as [|a l IH]; simpl; [constructor|].
  rewrite <- insert_perm. now constructor.
Qed.

Lemma sorted_perm_equal l :
  forall l', StronglySorted name_le l -> StronglySorted name_le l' ->
             Permutation l l' -> l = l'.
Proof.
  induction l as [|a l IH]; intros l' S S' P.
  - apply Permutation_nil in P. now subst.
  - destruct l' as [|b l']; [apply Permutation_sym, Permutation_nil in P; discriminate|].
    inversion S as [|? ? Sl Al]; subst. inversion S' as [|? ? Sl' Al']; subst.
    rewrite Forall_forall in Al, Al'.
    assert (a = b) as ->.
    { assert (In b (a :: l)) as Hb
          by (apply Permutation_in with (b :: l'); [now symmetry|now left]).
      assert (In a (b :: l')) as Ha
          by (apply Permutation_in with (a :: l); [exact P|now left]).
      destruct Hb as [E|Hb]; [exact E|]. destruct Ha as [E|Ha]; [now symmetry|].
      apply String.leb_antisym; [now apply Al|now apply Al']. }
    f_equal. apply IH; auto. now apply Permutation_cons_inv with b.
Qed.

Lemma sort_of_perm l l' : Permutation l l' -> Py.sort l = Py.sort l'.
Proof.
  intros P. apply sorted_perm_equal; auto using sort_sorted.
  now rewrite <- (sort_perm l), <- (sort_perm l').
Qed.

(** X8.  The candidates do not depend on the order in which the server
    lists the names: two listings with the same names give the same list of
    files, the same truncation and the same sink, in both tools. *)
Theorem candidates_ignore_listing_order :
  forall listing listing',
    Permutation listing listing' ->
    (forall s since, Storm.prepare s listing since = Storm.prepare s listing' since)
    /\ (forall s since, Ncei.prepare s listing since = Ncei.prepare s listing' since).
Proof.
  intros listing listing' P. pose proof (sort_of_perm _ _ P) as E.
  split; intros s since.
  - unfold Storm.prepare. now rewrite E.
  - unfold Ncei.prepare. now rewrite E.
Qed.

Lemma candidates_ignore_listing_order_witness :
  Storm.prepare sink_2024 listing_2023_2025 None
  = Storm.prepare sink_2024 (rev listing_2023_2025) None.
Proof.
  apply (proj1 (candidates_ignore_listing_order listing_2023_2025
                  (rev listing_2023_2025) (Permutation_rev _))).
Defined.

Lemma storm_files_incl s listing since f :
  In f (Storm.files (Storm.prepare s listing since)) -> In f listing.
Proof.
  unfold Storm.prepare. simpl. intros H.
  apply storm_filter_watermark_incl in H. apply sort_in.
  unfold Storm.filter_since in H.
  destruct (Py.truthy_opt since); [destruct since|]; auto.
  now apply filter_In in H.
Qed.

Lemma storm_files_nodup s listing since :
  NoDup listing -> NoDup (Storm.files (Storm.prepare s listing since)).
Proof.
  intros N. unfold Storm.prepare, Storm.filter_watermark, Storm.filter_since. simpl.
  assert (NoDup (Py.sort listing)) as N'
      by (eapply Permutation_NoDup; [apply sort_perm|exact N]).
  destruct (Storm.max_year s); destruct (Py.truthy_opt since); destruct since;
    auto using NoDup_filter.
Qed.

Lemma filter_raising_nodup p l r :
  Py.filter_raising p l = Some r -> NoDup l -> NoDup r.
Proof.
  intros H N. apply filter_raising_some in H as [-> _]. now apply NoDup_filter.
Qed.

Lemma ncei_files_facts s listing since t s' files :
  Ncei.prepare s listing since = Ncei.Started t s' files ->
  (forall f, In f files -> In f listing)
  /\ (NoDup listing -> NoDup files).
Proof.
  unfold Ncei.prepare.
  destruct (Ncei.filter_since since (Py.sort listing)) as [l|] eqn:E1; [|discriminate].
  assert ((forall f, In f l -> In f listing) /\ (NoDup listing -> NoDup l)) as [I1 N1].
  { split.
    - intros f Hf. apply sort_in. eapply ncei_filter_since_incl; eauto.
    - intros N.
      assert (NoDup (Py.sort listing)) as N'
          by (eapply Permutation_NoDup; [apply sort_perm|exact N]).
      unfold Ncei.filter_since in E1.
      destruct (Py.truthy_opt since); [destruct since|];
        try (inversion E1; subst; exact N').
      eapply filter_raising_nodup; eauto. }
  destruct (Ncei.max_year s) as [y|].
  - destruct (Ncei.filter_watermark (Some y) l) as [l'|] eqn:E2; [|discriminate].
    intros H; inversion H; subst. split.
    + intros f Hf. apply I1. eapply filter_raising_incl; eauto.
    + intros N. eapply filter_raising_nodup; eauto.
  - intros H; inversion H; subst. auto.
Qed.

(** X9.  The coordinator invents no name and repeats none: every candidate
    is a name of the listing, and a listing without repeated names gives
    candidates without repeated names, in both tools. *)
Theorem candidates_are_listed_once :
  (forall s listing since,
      (forall f, In f (Storm.files (Storm.prepare s listing since)) -> In f listing)
      /\ (NoDup listing -> NoDup (Storm.files (Storm.prepare s listing since))))
  /\ (forall s listing since t s' files,
         Ncei.prepare s listing since = Ncei.Started t s' files ->
         (forall f, In f files -> In f listing)
         /\ (NoDup listing -> NoDup files)).
Proof.
  split.
  - intros s listing since. split.
    + intros f. apply storm_files_incl.
    + apply storm_files_nodup.
  - exact ncei_files_facts.
Qed.

Lemma candidates_are_listed_once_witness :
  NoDup (Storm.files (Storm.prepare sink_2024 listing_2023_2025 None)).
Proof.
  apply (proj2 (proj1 candidates_are_listed_once sink_2024 listing_2023_2025 None)).
  repeat constructor; simpl; intuition discriminate.
Defined.

Lemma storm_keeps_max b w f :
  Storm.keeps b f && Storm.keeps w f = Storm.keeps (Z.max b w) f.
Proof.
  unfold Storm.keeps. destruct (Storm.extract_year_from_filename f) as [y|];
    [|reflexivity].
  destruct (Py.truthy y); simpl; [|reflexivity].
  destruct (Z.leb_spec b y); destruct (Z.leb_spec w y);
    destruct (Z.leb_spec (Z.max b w) y); simpl; try reflexivity; lia.
Qed.

Lemma filter_filter {A} (p q : A -> bool) l :
  filter p (filter q l) = filter (fun x => q x && p x) l.
Proof.
  induction l as [|a l IH]; simpl; [reflexivity|].
  destruct (q a); simpl; [destruct (p a)|]; now rewrite IH.
Qed.

(** X10.  Storm events: a [since_year] other than 0 and a truncation year
    act together as one lower bound, the larger of the two; and the two
    filters can be applied in either order. *)
Theorem storm_filters_compose :
  forall b w files,
    b <> 0 ->
    Storm.filter_watermark (Some w) (Storm.filter_since (Some b) files)
    = filter (Storm.keeps (Z.max b w)) files
    /\ Storm.filter_since (Some b) (Storm.filter_watermark (Some w) files)
       = Storm.filter_watermark (Some w) (Storm.filter_since (Some b) files).
Proof.
  intros b w files B.
  unfold Storm.filter_watermark, Storm.filter_since, Py.truthy_opt, Py.truthy.
  apply Z.eqb_neq in B. rewrite B. simpl. rewrite !filter_filter. split.
  - apply filter_ext. intros f. apply storm_keeps_max.
  - apply filter_ext. intros f. apply andb_comm.
Qed.

Lemma storm_filters_compose_witness :
  Storm.filter_watermark (Some 2024) (Storm.filter_since (Some 2023) listing_2023_2025)
  = filter (Storm.keeps (Z.max 2023 2024)) listing_2023_2025.
Proof.
  apply (proj1 (storm_filters_compose 2023 2024 listing_2023_2025 ltac:(lia))).
Defined.

(** ** The directory on the server *)

Lemma prefix_append a b : String.prefix a (String.append a b) = true.
Proof.
  induction a as [|c a IH]; simpl; [now destruct b|].
  destruct (ascii_dec c c); [exact IH|congruence].
Qed.

Lemma drop_append a b : Ftp.drop (String.length a) (String.append a b) = b.
Proof.
  induction a as [|c a IH]; simpl; [reflexivity|exact IH].
Qed.

(** X11.  A folder given as [ftp://server/path] is entered as [/path], and
    a folder given as a path (starting with a slash) is entered as it
    is. *)
Theorem cwd_path_strips_server :
  forall ftp_server,
    (forall path,
        Ftp.cwd_path ftp_server
          (String.append (String.append "ftp://" ftp_server) path) = path)
    /\ (forall path, Ftp.cwd_path ftp_server (String "/" path) = String "/" path).
Proof.
  intros srv. split; intros path; unfold Ftp.cwd_path.
  - now rewrite prefix_append, drop_append.
  - reflexivity.
Qed.

(** ** Cancellation *)

Lemma stopped_step a s s' :
  stop s = true -> step a s = Some s' ->
  stop s' = true
  /\ (exists l tl,
         fetched (trace s') = fetched (trace s) ++ l
         /\ l ++ to_transfer (fetcher s') ++ tl = to_transfer (fetcher s))
  /\ pushed_files (trace s') ++ to_put (fetcher s')
     = pushed_files (trace s) ++ to_put (fetcher s)
  /\ (match a with FetcherStep _ => 1 | _ => 0 end + distance (fetcher s')
      <= distance (fetcher s))%nat.
Proof.
  intros S H. revert S.
  step_cases H; intros S; try discriminate S; obs; simpl;
    rewrite ?app_nil_r;
    (split; [assumption || reflexivity|]);
    (split;
     [first [ exists [], []; rewrite !app_nil_r; split; reflexivity
            | exists [], [f]; rewrite !app_nil_r; split; reflexivity
            | exists [f], []; split; reflexivity ]|]);
    split; auto; lia.
Qed.

Lemma stopped_run sched :
  forall s s',
    stop s = true -> run sched s = Some s' ->
    stop s' = true
    /\ (exists l tl,
           fetched (trace s') = fetched (trace s) ++ l
           /\ l ++ to_transfer (fetcher s') ++ tl = to_transfer (fetcher s))
    /\ pushed_files (trace s') ++ to_put (fetcher s')
       = pushed_files (trace s) ++ to_put (fetcher s)
    /\ (fetcher_moves sched + distance (fetcher s') <= distance (fetcher s))%nat.
Proof.
  induction sched as [|a sched IH]; simpl; intros s s' S H.
  - inversion H; subst. repeat split; auto.
    exists [], []. now rewrite !app_nil_r.
  - destruct (step a s) as [s1|] eqn:E; [|discriminate].
    destruct (stopped_step a s s1 S E) as (S1 & (l1 & tl1 & F1 & T1) & P1 & D1).
    destruct (IH s1 s' S1 H) as (S2 & (l2 & tl2 & F2 & T2) & P2 & D2).
    split; [exact S2|]. split; [|split; [congruence|]].
    + exists (l1 ++ l2), (tl2 ++ tl1). split.
      * rewrite F2, F1. now rewrite app_assoc.
      * rewrite <- T1, <- T2. now rewrite <- !app_assoc.
    + unfold fetcher_moves in *. simpl. destruct a; simpl in *; lia.
Qed.

(** X12.  Once the stop flag is set, along any schedule: [download_files]
    starts no transfer but the one whose test of the flag it had already
    passed; the only file it may still put is the one it had already
    decided to put; and at the head of its loop, with a name left, its
    move is the [break]. *)
Theorem no_transfer_after_stop :
  forall sched s s',
    stop s = true -> run sched s = Some s' ->
    stop s' = true
    /\ (exists l tl,
           fetched (trace s') = fetched (trace s) ++ l
           /\ l ++ to_transfer (fetcher s') ++ tl = to_transfer (fetcher s))
    /\ (to_transfer (fetcher s) = [] -> fetched (trace s') = fetched (trace s))
    /\ pushed_files (trace s') ++ to_put (fetcher s')
       = pushed_files (trace s) ++ to_put (fetcher s)
    /\ (forall f rest ok,
           fetcher s' = FLoop (f :: rest) ->
           step (FetcherStep ok) s'
           = Some (mk_state true (queue s') (FFinally false) (main s') (staging s')
                     (trace s'))).
Proof.
  intros sched s s' S H.
  destruct (stopped_run sched s s' S H) as (S' & (l & tl & F & T) & P & _).
  split; [exact S'|]. split; [eauto|]. split; [|split; [exact P|]].
  - intros E. rewrite E in T. apply app_eq_nil in T as [-> _].
    now rewrite app_nil_r in F.
  - intros f rest ok E. simpl. unfold fetcher_step. now rewrite E, S'.
Qed.

(** X13.  Once the stop flag is set [download_files] is at most three
    moves away from its return: a schedule cannot contain more of them,
    three of them (or as many as it was away) see it returned, and until
    then it has a move whenever it does not wait at a full queue. *)
Theorem fetcher_stops_within_three_moves :
  forall sched s s',
    stop s = true -> run sched s = Some s' ->
    (fetcher_moves sched + distance (fetcher s') <= distance (fetcher s))%nat
    /\ (fetcher_moves sched <= 3)%nat
    /\ ((distance (fetcher s) <= fetcher_moves sched)%nat ->
        exited (fetcher s') = true)
    /\ (forall ok,
           exited (fetcher s') = false ->
           (putting (fetcher s') = true -> (List.length (queue s') < maxsize)%nat) ->
           exists s'',
             step (FetcherStep ok) s' = Some s''
             /\ (distance (fetcher s'') < distance (fetcher s'))%nat).
Proof.
  intros sched s s' S H.
  destruct (stopped_run sched s s' S H) as (S' & _ & _ & D).
  split; [exact D|]. split; [|split].
  - assert (distance (fetcher s) <= 3)%nat by (destruct (fetcher s); simpl; lia).
    lia.
  - intros L. destruct (fetcher s'); simpl in *; auto; lia.
  - intros ok X L. destruct (fetcher_enabled s' ok X L) as (s'' & E & _).
    exists s''. split; [exact E|].
    destruct (stopped_step _ _ _ S' E) as (_ & _ & _ & D'). simpl in D'. lia.
Qed.

Lemma no_transfer_after_stop_witness :
  exists s s',
    run cancelled_while_putting (start None four_files) = Some s
    /\ stop s = true
    /\ run [FetcherStep true; FetcherStep true; FetcherStep true] s = Some s'
    /\ fetched (trace s') = ["2019.csv.gz"]
    /\ pushed_files (trace s') = ["2019.csv.gz"].
Proof.
  run_to Hr cancelled_while_putting (start None four_files).
  match type of Hr with _ = Some ?s =>
    run_to Hr' [FetcherStep true; FetcherStep true; FetcherStep true] s;
    destruct (no_transfer_after_stop _ s _ eq_refl Hr') as (_ & _ & F & _)
  end.
  eexists. eexists. split; [exact Hr|]. split; [reflexivity|].
  split; [exact Hr'|]. split; [exact (F eq_refl)|]. reflexivity.
Defined.

Lemma fetcher_stops_within_three_moves_witness :
  exists s s',
    run cancelled_while_putting (start None four_files) = Some s
    /\ run [FetcherStep true; MainStep true; FetcherStep true; FetcherStep true] s
       = Some s'
    /\ exited (fetcher s') = true.
Proof.
  run_to Hr cancelled_while_putting (start None four_files).
  match type of Hr with _ = Some ?s =>
    run_to Hr' [FetcherStep true; MainStep true; FetcherStep true; FetcherStep true] s;
    destruct (fetcher_stops_within_three_moves _ s _ eq_refl Hr') as (_ & _ & B & _)
  end.
  eexists. eexists. split; [exact Hr|]. split; [exact Hr'|].
  apply B. unfold fetcher_moves. simpl. lia.
Defined.

(** ** What is handed over, and what is loaded *)

Lemma downloads_pushed wm files s :
  reachable wm files s ->
  exists tl,
    downloads (trace s) = pushed_files (trace s) ++ tl
    /\ (in_loop (fetcher s) = true -> tl = in_hand (fetcher s))
    /\ (List.length tl <= 1)%nat.
Proof.
  revert s.
  apply (reachable_invariant wm files
           (fun s => exists tl,
                downloads (trace s) = pushed_files (trace s) ++ tl
                /\ (in_loop (fetcher s) = true -> tl = in_hand (fetcher s))
                /\ (List.length tl <= 1)%nat)).
  - exists []. destruct (start_quiet wm files) as (_ & -> & _ & _ & -> & _).
    simpl. auto.
  - intros a s0 s' _ (tl & I & J & L) H.
    step_cases H; obs; rewrite ?app_nil_r; simpl in *;
      try (exists tl; repeat split; solve [assumption | discriminate | auto]);
      specialize (J eq_refl); subst tl; rewrite ?app_nil_r in *.
    + exists [f]. rewrite I. repeat split; auto.
    + exists []. rewrite I, app_nil_r. repeat split; auto.
Qed.

(** X14.  Every file put on the queue, and so every file handed to the
    insert, was downloaded in full before; and at most one downloaded file
    is ever not put on the queue: the one in hand, or the one discarded on
    cancellation. *)
Theorem only_complete_files_are_loaded :
  forall wm files sched s,
    run sched (start wm files) = Some s ->
    (exists tl, downloads (trace s) = pushed_files (trace s) ++ tl
                /\ (List.length tl <= 1)%nat)
    /\ (forall f, In f (loads (trace s)) -> In f (downloads (trace s))).
Proof.
  intros wm files sched s Hr.
  assert (reachable wm files s) as R by (now exists sched).
  destruct (downloads_pushed wm files s R) as (tl & E & _ & L).
  split; [eauto|].
  intros f Hf. rewrite E, (fifo wm files s R). rewrite !in_app_iff. auto.
Qed.

Lemma only_complete_files_are_loaded_witness :
  exists s,
    run (fetch_one ++ [MainStep true; MainStep true; FetcherStep true;
                       FetcherStep false])
      (start None four_files) = Some s
    /\ loads (trace s) = ["2019.csv.gz"]
    /\ fetched (trace s) = ["2019.csv.gz"; "2020.csv.gz"]
    /\ In "2019.csv.gz" (downloads (trace s)).
Proof.
  run_to Hr (fetch_one ++ [MainStep true; MainStep true; FetcherStep true;
                           FetcherStep false])
         (start None four_files).
  destruct (only_complete_files_are_loaded None _ _ _ Hr) as [_ G].
  eexists. split; [exact Hr|]. split; [reflexivity|]. split; [reflexivity|].
  apply G. simpl. now left.
Defined.

(** X15.  With distinct names among the candidates no file is put on the
    queue twice and none is handed to the insert twice in a run. *)
Theorem no_file_loaded_twice :
  forall wm files sched s,
    NoDup files ->
    run sched (start wm files) = Some s ->
    NoDup (pushed_files (trace s)) /\ NoDup (loads (trace s)).
Proof.
  intros wm files sched s N Hr.
  assert (reachable wm files s) as R by (now exists sched).
  destruct (pushed_prefix wm files s R) as (tl & E & _).
  assert (NoDup (pushed_files (trace s))) as P.
  { rewrite E in N. now apply NoDup_app_remove_r in N. }
  split; [exact P|].
  rewrite (fifo wm files s R) in P. now apply NoDup_app_remove_r in P.
Qed.

Lemma no_file_loaded_twice_witness :
  exists s,
    run slow_loader (start None four_files) = Some s
    /\ NoDup (pushed_files (trace s)) /\ NoDup (loads (trace s)).
Proof.
  run_to Hr slow_loader (start None four_files).
  assert (NoDup four_files) as N.
  { repeat constructor; simpl; intuition discriminate. }
  eexists. split; [exact Hr|].
  exact (no_file_loaded_twice None _ _ _ N Hr).
Defined.

(** X16.  When the loop is left on the marker, [download_files] has
    returned, the queue is empty, every file that was put has been handed
    to the insert, and local storage holds at most one file: the partial
    file of a failed transfer, and nothing at all if [download_files] did
    not raise. *)
Theorem marker_exit_is_clean :
  forall wm files sched s,
    run sched (start wm files) = Some s ->
    main s = LExit ByMarker ->
    exited (fetcher s) = true
    /\ queue s = []
    /\ loads (trace s) = pushed_files (trace s)
    /\ (List.length (staging s) <= 1)%nat
    /\ (raised_of (fetcher s) = false -> staging s = []).
Proof.
  intros wm files sched s Hr M.
  assert (reachable wm files s) as R by (now exists sched).
  destruct (queue_shape wm files s R) as [_ Q].
  destruct Q as [X Q]; [unfold marker_taken; now rewrite M|].
  pose proof (fifo wm files s R) as F. rewrite M, Q in F. simpl in F.
  rewrite app_nil_r in F.
  destruct (staging_bounded wm files s R) as [B _]. rewrite M, Q in B. simpl in B.
  repeat split; auto.
  - destruct (fetcher s) as [| | | |r|[]]; simpl in *; try discriminate; lia.
  - intros Z. destruct (fetcher s) as [| | | |r|r]; simpl in *; try discriminate.
    subst r. destruct (staging s); [reflexivity|simpl in B; lia].
Qed.

Lemma marker_exit_is_clean_witness :
  exists s,
    run (fetch_one ++ [FetcherStep true; FetcherStep false; FetcherStep true;
                       MainStep true; MainStep true; MainStep true])
      (start None four_files) = Some s
    /\ main s = LExit ByMarker
    /\ loads (trace s) = pushed_files (trace s)
    /\ (List.length (staging s) <= 1)%nat.
Proof.
  run_to Hr (fetch_one ++ [FetcherStep true; FetcherStep false; FetcherStep true;
                           MainStep true; MainStep true; MainStep true])
         (start None four_files).
  destruct (marker_exit_is_clean None _ _ _ Hr eq_refl) as (_ & _ & L & S & _).
  eexists. split; [exact Hr|]. split; [reflexivity|]. split; [exact L|exact S].
Defined.

(** ** Every run can be brought to its end *)

Lemma main_step_get_file s f q ok :
  main s = LGet -> queue s = File f :: q ->
  step (MainStep ok) s
  = Some (mk_state (stop s) q (fetcher s) (LProcess f) (staging s) (trace s)).
Proof. intros M Q. simpl. unfold main_step. now rewrite M, Q. Qed.

Lemma main_step_get_marker s q ok :
  main s = LGet -> queue s = EndOfFiles :: q ->
  step (MainStep ok) s
  = Some (mk_state (stop s) q (fetcher s) (LExit ByMarker) (staging s) (trace s)).
Proof. intros M Q. simpl. unfold main_step. now rewrite M, Q. Qed.

Lemma main_step_process s f :
  main s = LProcess f -> present f (staging s) = true ->
  step (MainStep true) s
  = Some (mk_state (stop s) (queue s) (fetcher s) LGet (delete f (staging s))
            (log s [Inserted f; Removed f; TaskDone f])).
Proof. intros M P. simpl. unfold main_step. now rewrite M, P. Qed.

Lemma main_step_cleanup s r ok :
  main s = LExit r ->
  step (MainStep ok) s
  = Some (mk_state (stop s) (queue s) (fetcher s) (MDone r) []
            (log s [CleanedUp (staging s)])).
Proof. intros M. simpl. unfold main_step. now rewrite M. Qed.

Lemma reachable_step wm files s a s' :
  reachable wm files s -> step a s = Some s' -> reachable wm files s'.
Proof.
  intros R H. apply (reachable_run wm files s [a]); [exact R|].
  cbn [run]. now rewrite H.
Qed.

Lemma process_then_get wm files s f :
  NoDup files -> reachable wm files s -> main s = LProcess f ->
  exists s', step (MainStep true) s = Some s'
             /\ main s' = LGet /\ queue s' = queue s /\ fetcher s' = fetcher s.
Proof.
  intros N R M.
  assert (present f (staging s) = true) as P.
  { apply present_In. apply (in_flight_staged wm files N s R);
      rewrite M; [reflexivity|now left]. }
  rewrite (main_step_process s f M P). eexists. split; [reflexivity|]. auto.
Qed.

Lemma loop_drains wm files (N : NoDup files) n :
  forall s,
    reachable wm files s -> exited (fetcher s) = true -> main s = LGet ->
    (List.length (queue s) <= n)%nat ->
    exists sched s',
      run sched s = Some s' /\ main s' = MDone ByMarker /\ fetcher s' = fetcher s.
Proof.
  induction n as [|n IH]; intros s R X M L;
    destruct (queue_shape wm files s R) as [Q _];
    unfold marker_taken in Q; rewrite X, M in Q; simpl in Q;
    destruct (queue s) as [|[f|] q] eqn:Eq;
    try (simpl in L; lia);
    try (destruct (queue_files []); discriminate Q).
  - (* a file is taken, processed, and the loop polls again *)
    pose proof (main_step_get_file s f q true M Eq) as S1.
    pose proof (reachable_step _ _ _ _ _ R S1) as R1.
    destruct (process_then_get wm files _ f N R1 eq_refl) as (s2 & S2 & M2 & Q2 & F2).
    pose proof (reachable_step _ _ _ _ _ R1 S2) as R2.
    simpl in Q2, F2.
    destruct (IH s2 R2) as (sc & s3 & Hr & M3 & F3); try congruence.
    { rewrite Q2. simpl in L. lia. }
    exists (MainStep true :: MainStep true :: sc), s3. cbn [run].
    rewrite S1, S2. split; [exact Hr|]. split; [exact M3|congruence].
  - (* the marker is taken and the directory cleaned up *)
    pose proof (main_step_get_marker s q true M Eq) as S1.
    exists [MainStep true; MainStep true]. eexists. cbn [run]. rewrite S1.
    rewrite (main_step_cleanup
               (mk_state (stop s) q (fetcher s) (LExit ByMarker) (staging s) (trace s))
               ByMarker true eq_refl).
    split; [reflexivity|]. auto.
Qed.

Lemma polling_run_completes wm files s :
  NoDup files -> reachable wm files s ->
  main s = LGet \/ (exists g, main s = LProcess g) ->
  exists sched' s',
    run sched' s = Some s' /\ main s' = MDone ByMarker /\ exited (fetcher s') = true.
Proof.
  intros N R M.
  destruct (completes_while_polling wm files N _ s R M (Nat.le_refl _))
    as (sc1 & s1 & Hr1 & X1 & M1).
  assert (reachable wm files s1) as R1 by (eapply reachable_run; eauto).
  assert (exists sc2 s2, run sc2 s1 = Some s2 /\ main s2 = MDone ByMarker
                         /\ fetcher s2 = fetcher s1) as (sc2 & s2 & Hr2 & M2 & F2).
  { destruct M1 as [M1|[f M1]].
    - destruct (loop_drains wm files N _ s1 R1 X1 M1 (Nat.le_refl _))
        as (sc & s2 & H & M2 & F2). eauto.
    - destruct (process_then_get wm files s1 f N R1 M1) as (s2 & S2 & M2 & _ & F2).
      pose proof (reachable_step _ _ _ _ _ R1 S2) as R2.
      assert (exited (fetcher s2) = true) as X2 by congruence.
      destruct (loop_drains wm files N _ s2 R2 X2 M2 (Nat.le_refl _))
        as (sc & s3 & H & M3 & F3).
      exists (MainStep true :: sc), s3. cbn [run]. rewrite S2.
      split; [exact H|]. split; [exact M3|congruence]. }
  exists (sc1 ++ sc2), s2. rewrite run_app, Hr1.
  split; [exact Hr2|]. split; [exact M2|congruence].
Qed.

(** X17.  With distinct names among the candidates, and unless the loop
    was left on cancellation or has timed out with the flag set, a run can
    be brought to its end: from every such state there is a continuation
    that ends with [download_files] returned, the loop left on the marker,
    the [with] block left and local storage empty, after which neither
    thread has a move left. *)
Theorem run_can_complete :
  forall wm files sched s,
    NoDup files ->
    run sched (start wm files) = Some s ->
    exit_of (main s) <> Some ByCancel -> (main s = LEmpty -> stop s = false) ->
    exists sched' s',
      run sched' s = Some s'
      /\ main s' = MDone ByMarker /\ exited (fetcher s') = true /\ staging s' = []
      /\ (forall ok, step (FetcherStep ok) s' = None)
      /\ (forall ok, step (MainStep ok) s' = None).
Proof.
  intros wm files sched s N Hr C T.
  assert (reachable wm files s) as R by (now exists sched).
  assert (exists sched' s',
             run sched' s = Some s' /\ main s' = MDone ByMarker
             /\ exited (fetcher s') = true) as (sc & s' & Hr' & M' & X').
  { destruct (main s) as [| |g|r|r] eqn:M.
    - apply (polling_run_completes wm files s N R). now left.
    - specialize (T eq_refl).
      assert (step (MainStep true) s
              = Some (mk_state (stop s) (queue s) (fetcher s) LGet (staging s)
                        (trace s)))
        as E by (simpl; unfold main_step; now rewrite M, T).
      pose proof (reachable_step _ _ _ _ _ R E) as R1.
      destruct (polling_run_completes wm files _ N R1 (or_introl eq_refl))
        as (sc & s' & H & M' & X').
      exists (MainStep true :: sc), s'. cbn [run]. rewrite E. auto.
    - apply (polling_run_completes wm files s N R). right. eauto.
    - assert (r = ByMarker) as ->.
      { destruct r; auto; [simpl in C; congruence|].
        exfalso. apply (never_crashes wm files N s R). now rewrite M. }
      exists [MainStep true]. eexists. cbn [run].
      rewrite (main_step_cleanup s ByMarker true M). split; [reflexivity|].
      simpl. split; [reflexivity|].
      destruct (queue_shape wm files s R) as [_ Q]. apply Q.
      unfold marker_taken. now rewrite M.
    - assert (r = ByMarker) as ->.
      { destruct r; auto; [simpl in C; congruence|].
        exfalso. apply (never_crashes wm files N s R). now rewrite M. }
      exists [], s. split; [reflexivity|]. split; [exact M|].
      destruct (queue_shape wm files s R) as [_ Q]. apply Q.
      unfold marker_taken. now rewrite M. }
  assert (reachable wm files s') as R' by (eapply reachable_run; eauto).
  exists sc, s'. split; [exact Hr'|]. split; [exact M'|]. split; [exact X'|].
  split.
  - destruct (staging_bounded wm files s' R') as [_ E]. apply E. now rewrite M'.
  - split; intros ok; simpl.
    + unfold fetcher_step. destruct (fetcher s'); try discriminate. reflexivity.
    + unfold main_step. now rewrite M'.
Qed.

Lemma run_can_complete_witness :
  exists s sched' s',
    run slow_loader (start None four_files) = Some s
    /\ run sched' s = Some s'
    /\ main s' = MDone ByMarker /\ staging s' = [].
Proof.
  run_to Hr slow_loader (start None four_files).
  assert (NoDup four_files) as N.
  { repeat constructor; simpl; intuition discriminate. }
  destruct (run_can_complete None _ _ _ N Hr) as (sc & s' & H & M & _ & S & _).
  - discriminate.
  - discriminate.
  - eexists. exists sc, s'. split; [exact Hr|]. auto.
Defined.

(** ** A whole run *)

Lemma undisturbed_end wm files s r :
  NoDup files -> reachable wm files s ->
  stop s = false -> fetcher s = FExit false -> main s = MDone r ->
  r = ByMarker /\ loads (trace s) = files /\ staging s = [].
Proof.
  intros N R S F M.
  assert (r = ByMarker) as ->.
  { destruct r; auto.
    - rewrite (cancel_needs_flag wm files s R) in S; [discriminate|now rewrite M].
    - exfalso. apply (never_crashes wm files N s R). now rewrite M. }
  split; [reflexivity|]. split.
  - destruct (queue_shape wm files s R) as [_ Q].
    destruct Q as [_ Q]; [unfold marker_taken; now rewrite M|].
    rewrite (account wm files s R).
    + rewrite M, F, Q. simpl. now rewrite app_nil_r.
    + unfold undisturbed. rewrite M, F. repeat split; auto; discriminate.
  - destruct (staging_bounded wm files s R) as [_ E]. apply E. now rewrite M.
Qed.

(** X18.  Storm events, end to end: for a listing without repeated names,
    a run that was not cancelled and in which no transfer failed has handed
    to the insert, in name order, exactly the candidates; a listed name
    with a non-zero year is among them exactly when that year is below
    neither [since_year] nor the truncation year; and nothing is left in
    local storage. *)
Theorem storm_run_loads_the_candidates :
  forall s listing since sched st r,
    NoDup listing ->
    run sched (Run.storm s listing since) = Some st ->
    stop st = false -> fetcher st = FExit false -> main st = MDone r ->
    loads (trace st) = Storm.files (Storm.prepare s listing since)
    /\ StronglySorted name_le (loads (trace st))
    /\ (forall f y,
           Storm.extract_year_from_filename f = Some y -> y <> 0 ->
           (In f (loads (trace st))
            <-> In f listing /\ passes since (Storm.max_year s) y))
    /\ staging st = [].
Proof.
  intros s listing since sched st r N Hr S F M.
  assert (NoDup (Storm.files (Storm.prepare s listing since))) as N'
      by now apply storm_files_nodup.
  destruct (undisturbed_end _ _ st r N' (ex_intro _ sched Hr) S F M) as (_ & L & E).
  rewrite L. split; [reflexivity|]. split; [apply storm_files_sorted|].
  split; [|exact E].
  intros f y X Y. unfold Storm.prepare, passes. simpl.
  rewrite (storm_filter_watermark_in _ _ f y X Y),
    (storm_filter_since_in since _ f y X Y), sort_in. tauto.
Qed.

Lemma storm_run_loads_the_candidates_witness :
  exists st,
    run (fetch_one ++ [MainStep true; MainStep true] ++ fetch_one
         ++ [FetcherStep true; FetcherStep true;
             MainStep true; MainStep false; MainStep true; MainStep true])
      (Run.storm sink_2024 listing_2023_2025 None) = Some st
    /\ loads (trace st)
       = ["StormEvents_details-ftp_v1.0_d2024_c20250520.csv.gz";
          "StormEvents_details-ftp_v1.0_d2025_c20250520.csv.gz"].
Proof.
  run_to Hr (fetch_one ++ [MainStep true; MainStep true] ++ fetch_one
             ++ [FetcherStep true; FetcherStep true;
                 MainStep true; MainStep false; MainStep true; MainStep true])
         (Run.storm sink_2024 listing_2023_2025 None).
  assert (NoDup listing_2023_2025) as N.
  { repeat constructor; simpl; intuition discriminate. }
  destruct (storm_run_loads_the_candidates sink_2024 listing_2023_2025 None _ _
              ByMarker N Hr eq_refl eq_refl eq_refl) as (L & _).
  eexists. split; [exact Hr|]. rewrite L. vm_compute. reflexivity.
Defined.

Lemma ncei_started_files s listing since l :
  Ncei.filter_since since (Py.sort listing) = Some l ->
  (forall y, exists l', Ncei.filter_watermark (Some y) l = Some l') ->
  exists files,
    Ncei.filter_watermark (Ncei.max_year s) l = Some files
    /\ Ncei.prepare s listing since
       = Ncei.Started (Ncei.max_year s)
           (match Ncei.max_year s with
            | Some y => Ncei.truncate y s
            | None => s
            end) files
    /\ Run.ncei s listing since = Some (start (Ncei.max_year s) files).
Proof.
  intros E1 T. unfold Run.ncei, Ncei.prepare. rewrite E1.
  destruct (Ncei.max_year s) as [y|]; [|simpl; eauto].
  destruct (T y) as [l' E2]. rewrite E2. eauto.
Qed.

(** X19.  NCEI, end to end: for a listing of names made of four digits, a
    dot and anything, without repeats, the two stages always start; the
    candidates are in name order, without repeats, and a name whose first
    four characters read as the year [y] is among them exactly when it is
    listed and [y] is below neither [since_year] nor the truncation year;
    a run that was not cancelled and in which no transfer failed has
    handed to the insert exactly the candidates, in their order, leaving
    nothing in local storage. *)
Theorem ncei_run_loads_the_candidates :
  forall s listing since,
    NoDup listing ->
    (forall f, In f listing -> is_year_name f = true) ->
    exists files,
      Run.ncei s listing since = Some (start (Ncei.max_year s) files)
      /\ StronglySorted name_le files
      /\ NoDup files
      /\ (forall f y,
             Py.int (Py.slice4 f) = Some y ->
             (In f files <-> In f listing /\ passes since (Ncei.max_year s) y))
      /\ forall sched st r,
          run sched (start (Ncei.max_year s) files) = Some st ->
          stop st = false -> fetcher st = FExit false -> main st = MDone r ->
          loads (trace st) = files /\ staging st = [].
Proof.
  intros s listing since N W.
  destruct (ncei_filters_never_raise listing since W) as (l & E1 & T).
  destruct (ncei_started_files s listing since l E1 T) as (files & E2 & P & E).
  exists files. split; [exact E|].
  destruct (ncei_files_facts _ _ _ _ _ _ P) as [Inc N'].
  split; [eapply ncei_files_sorted; eauto|]. split; [exact (N' N)|].
  split.
  - intros f y Y.
    assert (In f listing -> Py.int (Py.split_dot_0 f) = Some y) as Z.
    { intros Hf.
      destruct (year_name_ints f (W f Hf))
        as (a & b & c & d & _ & _ & _ & _ & X1 & X2). congruence. }
    unfold passes. split.
    + intros Hf. assert (In f listing) as Hl by (now apply Inc).
      apply (ncei_filter_watermark_in _ _ _ f y E2 (Z Hl)) in Hf as [Hf H2].
      apply (ncei_filter_since_in _ _ _ f y E1 Y) in Hf as [_ H1]. auto.
    + intros (Hl & H1 & H2).
      apply (ncei_filter_watermark_in _ _ _ f y E2 (Z Hl)). split; [|exact H2].
      apply (ncei_filter_since_in _ _ _ f y E1 Y). split; [|exact H1].
      now apply sort_in.
  - intros sched st r Hr S F M.
    destruct (undisturbed_end _ _ st r (N' N) (ex_intro _ sched Hr) S F M)
      as (_ & L & X).
    auto.
Qed.

Lemma ncei_run_loads_the_candidates_witness :
  exists files,
    Run.ncei ncei_sink_2024 four_files (Some 2020)
    = Some (start (Some 2024) files)
    /\ StronglySorted name_le files
    /\ ~ In "2021.csv.gz" files.
Proof.
  assert (NoDup four_files) as N.
  { repeat constructor; simpl; intuition discriminate. }
  destruct (ncei_run_loads_the_candidates ncei_sink_2024 four_files (Some 2020) N)
    as (files & E & S & _ & M & _).
  - intros f [<-|[<-|[<-|[<-|[]]]]]; reflexivity.
  - exists files. split; [exact E|]. split; [exact S|].
    intros Hf. apply (M "2021.csv.gz" 2021 eq_refl) in Hf as (_ & _ & H).
    specialize (H 2024 eq_refl). lia.
Defined.

(** ** What the loop does with each file it takes *)

Lemma loop_bookkeeping wm files s :
  NoDup files -> reachable wm files s ->
  task_dones (trace s) = loads (trace s)
  /\ removed_by_loop (trace s) = loads (trace s).
Proof.
  intros N. revert s. apply reachable_invariant.
  - unfold start, task_dones, removed_by_loop. destruct wm; simpl; auto.
  - intros a s0 s' R [I J] H. pose proof (in_flight_staged wm files N _ R) as P.
    revert I J.
    step_cases H; unfold task_dones, removed_by_loop; obs;
      rewrite ?flat_map_app; simpl; rewrite ?app_nil_r;
      intros I J; try (split; congruence).
    all: exfalso; match goal with E : present _ _ = false |- _ =>
           apply present_false in E; apply E end;
      apply P; [reflexivity|now left].
Qed.

(** X20.  With distinct names among the candidates, the loop removes each
    file it has handed to the insert and calls [task_done] for it, once
    each and in the order of the inserts, whether the insert succeeded or
    raised; [task_done] is never called for the marker. *)
Theorem loop_cleans_what_it_loads :
  forall wm files sched s,
    NoDup files ->
    run sched (start wm files) = Some s ->
    task_dones (trace s) = loads (trace s)
    /\ removed_by_loop (trace s) = loads (trace s)
    /\ (List.length (task_dones (trace s)) <= List.length (pushed_files (trace s)))%nat.
Proof.
  intros wm files sched s N Hr.
  assert (reachable wm files s) as R by (now exists sched).
  destruct (loop_bookkeeping wm files s N R) as [T D].
  split; [exact T|]. split; [exact D|].
  rewrite T, (fifo wm files s R), !length_app. lia.
Qed.

Lemma loop_cleans_what_it_loads_witness :
  exists s,
    run (fetch_one ++ [MainStep true; MainStep false])
      (start None four_files) = Some s
    /\ task_dones (trace s) = ["2019.csv.gz"]
    /\ removed_by_loop (trace s) = loads (trace s).
Proof.
  run_to Hr (fetch_one ++ [MainStep true; MainStep false])
         (start None four_files).
  assert (NoDup four_files) as N.
  { repeat constructor; simpl; intuition discriminate. }
  destruct (loop_cleans_what_it_loads None _ _ _ N Hr) as (_ & D & _).
  eexists. split; [exact Hr|]. split; [reflexivity|exact D].
Defined.

(** ** Row counts of the NCEI loop *)

Lemma ncei_try_rows s p :
  Load.rows_of (fst (Load.ncei_try s p))
  = Load.rows_of s ++ Load.inserted [p]
  /\ fst (Load.ncei_try s p) <> None
  /\ Load.total_added [snd (Load.ncei_try s p)]
     = Load.count (Load.rows_of (fst (Load.ncei_try s p)))
       - Load.count (Load.rows_of s).
Proof.
  unfold Load.ncei_try, Load.total_added, Load.rows_added, Load.inserted, Load.count.
  destruct s as [rows|]; destruct p as [new|]; simpl;
    rewrite ?app_nil_r; repeat split; try discriminate; lia.
Qed.

(** X21.  NCEI loop: after the files taken from the queue have gone
    through the [try] block, the table holds its former rows followed by
    the rows of the files whose INSERT went through, in order; a file whose
    INSERT raised adds nothing and reports nothing; the [rows_added]
    printed add up to the growth of the table; and as soon as one file was
    taken the table exists, even if every INSERT raised. *)
Theorem ncei_deltas_add_up :
  forall files s,
    let (s', reports) := Load.ncei_loop s files in
    Load.rows_of s' = Load.rows_of s ++ Load.inserted files
    /\ Load.total_added reports
       = Load.count (Load.rows_of s') - Load.count (Load.rows_of s)
    /\ List.length reports = List.length files
    /\ (files <> [] -> s' <> None).
Proof.
  induction files as [|p files IH]; intros s; simpl.
  - rewrite app_nil_r. repeat split; auto; lia.
  - destruct (ncei_try_rows s p) as (R1 & N1 & T1).
    destruct (Load.ncei_try s p) as [s1 r] eqn:E1. simpl in R1, N1, T1.
    specialize (IH s1). destruct (Load.ncei_loop s1 files) as [s2 rs] eqn:E2.
    destruct IH as (R2 & T2 & L2 & N2). repeat split.
    + rewrite R2, R1. unfold Load.inserted. simpl.
      now rewrite app_nil_r, app_assoc.
    + unfold Load.total_added in *. simpl in *. destruct r; lia.
    + simpl. now rewrite L2.
    + intros _. destruct files as [|q files]; [|apply N2; discriminate].
      simpl in E2. inversion E2; subst. exact N1.
Qed.
